(** * fused-gtest: the include fusioner of [fuse/__main__.py]

    A shallow embedding of the Python program that flattens a tree of
    C/C++ files into one file, and the properties of its specification.

    Modelling choices, fixed once for the whole development:
    - a Python [str] is a Rocq [string]; a character is a code point below
      256.  [str.lower] and [str.upper] act on the ASCII letters only.
    - a [pathlib.Path] is its parsed POSIX form: a root and the list of
      components ([Path]); the file system is the environment of a run, a
      record of the three operations the program performs on it
      ([FileSystem]): [Path.exists], [open(...).read()] and [Path.resolve].
    - [self] is threaded through every method as an explicit state; the
      lines printed to [sys.stderr] are kept in the same record.
    - recursion of [process_file] through included files is driven by a
      fuel argument; running out of fuel is an outcome of the model of its
      own ([OutOfFuel]), never an exception of the program. *)

From Stdlib Require Import String Ascii List Lia.
From stdpp Require Import base decidable countable gmap sets list strings.
Import ListNotations.
Local Open Scope string_scope.
Local Open Scope list_scope.

(** ** Text *)

Module Str.

Definition code (c : ascii) : nat := nat_of_ascii c.

(** Characters matched by [\s] in a [str] pattern, below 256. *)
Definition is_space (c : ascii) : bool :=
  let n := code c in
  (((9 <=? n) && (n <=? 13)) || ((28 <=? n) && (n <=? 32))
   || (n =? 133) || (n =? 160))%nat.

Definition lower_char (c : ascii) : ascii :=
  let n := code c in
  if ((65 <=? n) && (n <=? 90))%nat then ascii_of_nat (n + 32) else c.

Definition upper_char (c : ascii) : ascii :=
  let n := code c in
  if ((97 <=? n) && (n <=? 122))%nat then ascii_of_nat (n - 32) else c.

Fixpoint map_chars (f : ascii -> ascii) (s : string) : string :=
  match s with
  | EmptyString => EmptyString
  | String c r => String (f c) (map_chars f r)
  end.

Definition lower : string -> string := map_chars lower_char.
Definition upper : string -> string := map_chars upper_char.

(** [c in s] for a one-character [c]. *)
Fixpoint contains (c : ascii) (s : string) : bool :=
  match s with
  | EmptyString => false
  | String d r => if Ascii.eqb c d then true else contains c r
  end.

(** [s.startswith(p)]. *)
Fixpoint startswith (p s : string) : bool :=
  match p, s with
  | EmptyString, _ => true
  | String a p', String b s' => if Ascii.eqb a b then startswith p' s' else false
  | String _ _, EmptyString => false
  end.

(** [s.split(sep)] for a one-character separator. *)
Fixpoint split (sep : ascii) (s : string) : list string :=
  match s with
  | EmptyString => [EmptyString]
  | String c r =>
      if Ascii.eqb c sep then EmptyString :: split sep r
      else match split sep r with
           | h :: t => String c h :: t
           | [] => [String c EmptyString]
           end
  end.

(** [sep.join(l)]. *)
Fixpoint join (sep : string) (l : list string) : string :=
  match l with
  | [] => EmptyString
  | [x] => x
  | x :: rest => x +:+ sep +:+ join sep rest
  end.

(** [s.rfind(c)], [None] for Python's [-1]. *)
Fixpoint rfind (c : ascii) (s : string) : option nat :=
  match s with
  | EmptyString => None
  | String d r =>
      match rfind c r with
      | Some i => Some (S i)
      | None => if Ascii.eqb c d then Some 0 else None
      end
  end.

(** [s[:i]] and [s[i:]]. *)
Fixpoint take (i : nat) (s : string) : string :=
  match i, s with
  | S i', String c r => String c (take i' r)
  | _, _ => EmptyString
  end.

Fixpoint drop (i : nat) (s : string) : string :=
  match i, s with
  | S i', String _ r => drop i' r
  | _, _ => s
  end.

Definition eqb (a b : string) : bool := bool_decide (a = b).

(** [x in l] for a list of strings. *)
Definition in_list (x : string) (l : list string) : bool :=
  existsb (eqb x) l.

End Str.

(** ** Paths

    [pathlib.PurePosixPath]: the root is empty, [/] or [//] (exactly two
    leading slashes are kept apart by POSIX), and the components never
    contain a slash, the empty string or a lone dot. *)

Inductive Root := NoRoot | Slash | SlashSlash.

Record Path := mkPath { root : Root; parts : list string }.

Global Instance Root_eq_dec : EqDecision Root.
Proof. solve_decision. Defined.

Global Instance Path_eq_dec : EqDecision Path.
Proof. solve_decision. Defined.

Definition Root_to_nat (r : Root) : nat :=
  match r with NoRoot => 0 | Slash => 1 | SlashSlash => 2 end.

Definition Root_of_nat (n : nat) : Root :=
  match n with 0 => NoRoot | 1 => Slash | _ => SlashSlash end.

Global Instance Path_countable : Countable Path.
Proof.
  apply (inj_countable' (fun p => (Root_to_nat (root p), parts p))
                        (fun x => mkPath (Root_of_nat (fst x)) (snd x))).
  intros [[] ?]; reflexivity.
Defined.

Module PathLib.

Definition slash : ascii := "/"%char.

(** The root of a path string: [posixpath.splitroot]. *)
Definition parse_root (s : string) : Root :=
  match s with
  | String a (String b (String c _)) =>
      if Ascii.eqb a slash then
        if Ascii.eqb b slash then
          if Ascii.eqb c slash then Slash else SlashSlash
        else Slash
      else NoRoot
  | String a (String b EmptyString) =>
      if Ascii.eqb a slash then
        if Ascii.eqb b slash then SlashSlash else Slash
      else NoRoot
  | String a EmptyString => if Ascii.eqb a slash then Slash else NoRoot
  | EmptyString => NoRoot
  end.

Definition keep_part (x : string) : bool :=
  negb (Str.eqb x "") && negb (Str.eqb x ".").

(** [Path(s)]. *)
Definition of_string (s : string) : Path :=
  mkPath (parse_root s) (List.filter keep_part (Str.split slash s)).

Definition root_str (r : Root) : string :=
  match r with NoRoot => "" | Slash => "/" | SlashSlash => "//" end.

(** [str(p)]. *)
Definition to_string (p : Path) : string :=
  match root p, parts p with
  | NoRoot, [] => "."
  | r, l => root_str r +:+ Str.join "/" l
  end.

Definition is_absolute (p : Path) : bool :=
  match root p with NoRoot => false | _ => true end.

(** [p / q] for two paths: an absolute right operand replaces the left. *)
Definition joinpath (p q : Path) : Path :=
  if is_absolute q then q else mkPath (root p) (parts p ++ parts q).

(** [p / s] for a string [s]. *)
Definition div (p : Path) (s : string) : Path := joinpath p (of_string s).

(** [p.parent]. *)
Definition parent (p : Path) : Path :=
  match parts p with
  | [] => p
  | _ => mkPath (root p) (removelast (parts p))
  end.

(** [p.name]. *)
Definition name (p : Path) : string := List.last (parts p) "".

(** The index at which the suffix of a name starts, when it has one:
    [0 < i < len(name) - 1] for [i = name.rfind('.')]. *)
Definition suffix_index (n : string) : option nat :=
  match Str.rfind "."%char n with
  | Some i => if ((0 <? i) && (i <? String.length n - 1))%nat then Some i else None
  | None => None
  end.

(** [p.suffix]. *)
Definition suffix (p : Path) : string :=
  match suffix_index (name p) with
  | Some i => Str.drop i (name p)
  | None => ""
  end.

(** [p.stem]. *)
Definition stem (p : Path) : string :=
  match suffix_index (name p) with
  | Some i => Str.take i (name p)
  | None => name p
  end.

End PathLib.

Notation "p // s" := (PathLib.div p s) (at level 40, left associativity).

(** ** The file system a run sees *)

Record FileSystem := mkFS {
  fs_exists : Path -> bool;            (* [p.exists()] *)
  fs_read : Path -> option string;     (* [open(p, 'r').read()], [None] when it raises *)
  fs_resolve : Path -> Path            (* [p.resolve()] *)
}.

(** ** [FileType], [ProcessedFile], [get_file_type] *)

Inductive FileType := HEADER | SOURCE | UNKNOWN.

Global Instance FileType_eq_dec : EqDecision FileType.
Proof. solve_decision. Defined.

Record ProcessedFile := mkProcessedFile {
  pf_path : Path;
  pf_content : string;
  pf_type : FileType
}.

Definition get_file_type (path : Path) : FileType :=
  let ext := Str.lower (PathLib.suffix path) in
  if Str.in_list ext [".h"; ".hpp"; ".hxx"; ".hh"] then HEADER
  else if Str.in_list ext [".c"; ".cpp"; ".cxx"; ".cc"] then SOURCE
  else UNKNOWN.

Example get_file_type_h :
  get_file_type (PathLib.of_string "/proj/include/Foo.HPP") = HEADER.
Proof. reflexivity. Qed.

Example get_file_type_cc :
  get_file_type (PathLib.of_string "src/gtest-all.cc") = SOURCE.
Proof. reflexivity. Qed.

Example of_string_normalises :
  PathLib.of_string "./gtest//src/./gtest-all.cc"
  = mkPath NoRoot ["gtest"; "src"; "gtest-all.cc"].
Proof. reflexivity. Qed.

Example div_absolute_right :
  PathLib.of_string "/proj/src" // "/usr/include/x.h"
  = PathLib.of_string "/usr/include/x.h".
Proof. reflexivity. Qed.

Example stem_suffix :
  PathLib.stem (PathLib.of_string "a/gtest.tar.gz") = "gtest.tar"
  /\ PathLib.suffix (PathLib.of_string "a/gtest.tar.gz") = ".gz"
  /\ PathLib.to_string (PathLib.parent (PathLib.of_string "a.h")) = ".".
Proof. repeat split. Qed.

Example get_file_type_hidden :
  get_file_type (PathLib.of_string ".h") = UNKNOWN.
Proof. reflexivity. Qed.

(** ** The pattern of an include line

    [re.match(r'#include\s*[<Q]([^>Q]+)[>Q]', line)], where Q stands for the
    double quote character: the match is anchored at the first character of
    the line.  The pieces of the pattern cannot
    overlap ([\s] never matches a delimiter, the class of the group is the
    complement of the class that closes it), so the greedy, backtracking
    search of [re] is the single left-to-right scan below. *)

Module Re.

Definition dquote : ascii := ascii_of_nat 34.
Definition langle : ascii := "<"%char.
Definition rangle : ascii := ">"%char.

(** the class [<Q] *)
Definition is_open (c : ascii) : bool := Ascii.eqb c langle || Ascii.eqb c dquote.
(** the class [>Q], whose complement is [^>Q] *)
Definition is_close (c : ascii) : bool := Ascii.eqb c rangle || Ascii.eqb c dquote.

(** What a successful match exposes: the delimiters it consumed and
    [group(1)]. *)
Record Match := mkMatch { m_open : ascii; group1 : string; m_close : ascii }.

(** The literal prefix of the pattern. *)
Fixpoint literal (p s : string) : option string :=
  match p, s with
  | EmptyString, _ => Some s
  | String a p', String b s' => if Ascii.eqb a b then literal p' s' else None
  | String _ _, EmptyString => None
  end.

(** [\s*] *)
Fixpoint spaces (s : string) : string :=
  match s with
  | String c r => if Str.is_space c then spaces r else s
  | EmptyString => EmptyString
  end.

(** [^>Q]*, with what is left of the line. *)
Fixpoint span (s : string) : string * string :=
  match s with
  | String c r =>
      if is_close c then (EmptyString, s)
      else let '(n, rest) := span r in (String c n, rest)
  | EmptyString => (EmptyString, EmptyString)
  end.

Definition match_include (line : string) : option Match :=
  match literal "#include" line with
  | None => None
  | Some after =>
      match spaces after with
      | String o r =>
          if is_open o then
            match span r with
            | (EmptyString, _) => None
            | (n, String c _) => Some (mkMatch o n c)
            | (_, EmptyString) => None
            end
          else None
      | EmptyString => None
      end
  end.

End Re.

(** A string between double quotes, for writing include lines. *)
Definition quoted (s : string) : string :=
  String Re.dquote (s +:+ String Re.dquote EmptyString).

(** ** The engine: [CppFusioner] *)

Record CppFusioner := mkFusioner {
  include_paths : list Path;
  processing_stack : gset Path;
  inline_headers : bool;
  inline_sources : bool;
  already_inlined : gset Path;
  stderr : list string                (* the lines printed to [sys.stderr] *)
}.

(** [CppFusioner.__init__] *)
Definition CppFusioner_init (paths : list string) (headers sources : bool)
  : CppFusioner :=
  mkFusioner (List.map PathLib.of_string paths) ∅ headers sources ∅ [].

Definition set_processing_stack (s : gset Path) (self : CppFusioner) :=
  mkFusioner (include_paths self) s (inline_headers self)
             (inline_sources self) (already_inlined self) (stderr self).

Definition set_already_inlined (s : gset Path) (self : CppFusioner) :=
  mkFusioner (include_paths self) (processing_stack self) (inline_headers self)
             (inline_sources self) s (stderr self).

Definition set_stderr (l : list string) (self : CppFusioner) :=
  mkFusioner (include_paths self) (processing_stack self) (inline_headers self)
             (inline_sources self) (already_inlined self) l.

(** *** Exceptions and the monad of the methods *)

Inductive exn :=
| Exception (msg : string)     (* [raise Exception(msg)] *)
| OSError (p : Path)           (* [open] or [read] failed on [p] *)
| KeyError (p : Path).         (* [set.remove] of an absent element *)

Inductive outcome (A : Type) :=
| Return (a : A)
| Raise (e : exn)
| OutOfFuel.
Arguments Return {A} a.
Arguments Raise {A} e.
Arguments OutOfFuel {A}.

Definition M (A : Type) : Type := CppFusioner -> outcome A * CppFusioner.

Definition ret {A} (a : A) : M A := fun self => (Return a, self).
Definition raise {A} (e : exn) : M A := fun self => (Raise e, self).
Definition out_of_fuel {A} : M A := fun self => (OutOfFuel, self).

Definition bind {A B} (m : M A) (k : A -> M B) : M B :=
  fun self =>
    match m self with
    | (Return a, self') => k a self'
    | (Raise e, self') => (Raise e, self')
    | (OutOfFuel, self') => (OutOfFuel, self')
    end.

Definition gets {A} (f : CppFusioner -> A) : M A := fun self => (Return (f self), self).
Definition modify (f : CppFusioner -> CppFusioner) : M unit :=
  fun self => (Return tt, f self).

Notation "'let*' x := m 'in' k" := (bind m (fun x => k))
  (at level 10, x name, m at level 100, k at level 200).

(** [try: body finally: fin] — [fin] runs however [body] ends, and an
    exception of [fin] replaces the result of [body]. *)
Definition try_finally {A} (body : M A) (fin : M unit) : M A :=
  fun self =>
    match body self with
    | (OutOfFuel, self1) => (OutOfFuel, self1)
    | (r, self1) =>
        match fin self1 with
        | (Return _, self2) => (r, self2)
        | (Raise e, self2) => (Raise e, self2)
        | (OutOfFuel, self2) => (OutOfFuel, self2)
        end
    end.

(** [print(msg, file=stderr)] *)
Definition print (msg : string) : M unit :=
  modify (fun self => set_stderr (stderr self ++ [msg]) self).

(** [self.processing_stack.add(p)] *)
Definition stack_add (p : Path) : M unit :=
  modify (fun self => set_processing_stack (processing_stack self ∪ {[p]}) self).

(** [self.processing_stack.remove(p)] *)
Definition stack_remove (p : Path) : M unit :=
  fun self =>
    if decide (p ∈ processing_stack self)
    then (Return tt, set_processing_stack (processing_stack self ∖ {[p]}) self)
    else (Raise (KeyError p), self).

(** [self.already_inlined.add(p)] *)
Definition inlined_add (p : Path) : M unit :=
  modify (fun self => set_already_inlined (already_inlined self ∪ {[p]}) self).

(** [x in self.already_inlined] for an [x] that may be [None]. *)
Definition in_already_inlined (x : option Path) (self : CppFusioner) : bool :=
  match x with
  | Some p => bool_decide (p ∈ already_inlined self)
  | None => false
  end.

Section Engine.

Variable fs : FileSystem.

(** [with open(p, 'r') as f: content = f.read()] *)
Definition read_file (p : Path) : M string :=
  match fs_read fs p with
  | Some content => ret content
  | None => raise (OSError p)
  end.

(** The loop of [find_include_file] over [self.include_paths]. *)
Fixpoint search_include_paths (include_name : string) (paths : list Path)
  : option Path :=
  match paths with
  | [] => None
  | include_path :: rest =>
      let full_path := include_path // include_name in
      if fs_exists fs full_path then Some full_path
      else search_include_paths include_name rest
  end.

Definition find_include_file (self : CppFusioner) (include_name : string)
           (current_dir : Path) : option Path :=
  let local_path := current_dir // include_name in
  if fs_exists fs local_path then Some local_path
  else search_include_paths include_name (include_paths self).

(** The body of the loop of [process_file] for one line; [rec] is the
    recursive call [self.process_file]. *)
Definition process_line (rec : Path -> M ProcessedFile)
           (file_path abs_path : Path) (line : string)
           (processed_lines : list string) : M (list string) :=
  match Re.match_include line with
  | Some include_match =>
      let include_name := Re.group1 include_match in
      if Str.contains Re.langle line then
        let* _ := print ("preserve system include " +:+ include_name +:+ " in "
                         +:+ PathLib.to_string file_path) in
        ret (processed_lines ++ [line])
      else
        let* self := gets id in
        let include_path :=
          find_include_file self include_name (PathLib.parent abs_path) in
        if in_already_inlined include_path self then
          let* _ := print ("already inlined "
                           +:+ from_option PathLib.to_string "None" include_path
                           +:+ " when processing "
                           +:+ PathLib.to_string file_path) in
          ret processed_lines
        else
          match include_path with
          | Some include_path =>
              let included_file_type := get_file_type include_path in
              if inline_headers self
                 && bool_decide (included_file_type = HEADER) then
                let* included_file := rec include_path in
                let* _ := print ("inline header " +:+ include_name) in
                let processed_lines :=
                  processed_lines
                    ++ ["// Inlined from: " +:+ PathLib.to_string include_path] in
                let processed_lines :=
                  processed_lines ++ [pf_content included_file] in
                let* _ := inlined_add include_path in
                ret processed_lines
              else if inline_sources self
                      && (bool_decide (included_file_type = SOURCE)
                          || Str.eqb include_name "src/gtest-internal-inl.h"
                          || Str.eqb include_name "gtest/gtest-spi.h") then
                let* included_file := rec include_path in
                let* _ := print ("inline source " +:+ include_name) in
                let processed_lines :=
                  processed_lines
                    ++ ["// Inlined from: " +:+ PathLib.to_string include_path] in
                let processed_lines :=
                  processed_lines ++ [pf_content included_file] in
                let* _ := inlined_add include_path in
                ret processed_lines
              else if Str.startswith "gtest/" include_name
                      && negb (Str.eqb include_name "gtest/gtest.h") then
                let* _ := print ("skipping " +:+ include_name
                                 +:+ " when processing "
                                 +:+ PathLib.to_string file_path) in
                ret (processed_lines ++ ["//" +:+ line])
              else
                let* _ := print ("not inlining " +:+ include_name
                                 +:+ " when processing "
                                 +:+ PathLib.to_string file_path) in
                ret (processed_lines ++ [line])
          | None =>
              let* _ := print ("could not find " +:+ line) in
              ret (processed_lines ++ [line])
          end
  | None => ret (processed_lines ++ [line])
  end.

(** [for line in content.split(NL): ...] *)
Fixpoint process_lines (rec : Path -> M ProcessedFile)
         (file_path abs_path : Path) (lines : list string)
         (processed_lines : list string) : M (list string) :=
  match lines with
  | [] => ret processed_lines
  | line :: rest =>
      let* processed_lines :=
        process_line rec file_path abs_path line processed_lines in
      process_lines rec file_path abs_path rest processed_lines
  end.

Definition newline : ascii := ascii_of_nat 10.
Definition nl : string := String newline EmptyString.

Fixpoint process_file (fuel : nat) (file_path : Path) : M ProcessedFile :=
  match fuel with
  | O => out_of_fuel
  | S fuel' =>
      let abs_path := fs_resolve fs file_path in
      let* stack := gets processing_stack in
      if decide (abs_path ∈ stack) then
        raise (Exception ("Circular dependency detected: "
                          +:+ PathLib.to_string abs_path))
      else
        let* _ := stack_add abs_path in
        try_finally
          (let* content := read_file abs_path in
           let file_type := get_file_type abs_path in
           let* processed_lines :=
             process_lines (process_file fuel') file_path abs_path
                           (Str.split newline content) [] in
           ret (mkProcessedFile abs_path (Str.join nl processed_lines) file_type))
          (stack_remove abs_path)
  end.

(** [fuse_file]; the result is the text written to [output_file]. *)
Definition fuse_file (fuel : nat) (input_file output_file : string) : M string :=
  let input_path := PathLib.of_string input_file in
  let* processed := process_file fuel input_path in
  let output_content :=
    if bool_decide (pf_type processed = HEADER) then
      let guard_name := "FUSED_" +:+ Str.upper (PathLib.stem input_path) +:+ "_H" in
      [] ++ [ "#ifndef " +:+ guard_name;
              "#define " +:+ guard_name;
              "";
              pf_content processed;
              "";
              "#endif  // " +:+ guard_name ]
    else
      [] ++ [pf_content processed] in
  ret (Str.join nl output_content).

End Engine.

(** The script: [None] is the usage message and [sys.exit(1)]. *)
Definition main (fs : FileSystem) (fuel : nat) (argv : list string)
  : option (outcome string * CppFusioner) :=
  match argv with
  | _ :: input_file :: output_file :: rest =>
      let paths := match rest with [] => ["."] | _ => rest end in
      let file_type := get_file_type (PathLib.of_string input_file) in
      let fusioner :=
        CppFusioner_init paths (bool_decide (file_type = HEADER))
                         (bool_decide (file_type = SOURCE)) in
      Some (fuse_file fs fuel input_file output_file fusioner)
  | _ => None
  end.

(** ** A file system in memory

    Used for the concrete runs below: a current directory and a table of
    regular files under absolute names.  No symbolic links, so [resolve]
    is the lexical one: make the path absolute, then cancel every [..]
    against the component before it. *)

Module MemFS.

Fixpoint normalise (seen rest : list string) : list string :=
  match rest with
  | [] => seen
  | x :: rest' =>
      if Str.eqb x ".." then normalise (removelast seen) rest'
      else normalise (seen ++ [x]) rest'
  end.

Definition resolve (cwd p : Path) : Path :=
  let q := PathLib.joinpath cwd p in
  mkPath (root q) (normalise [] (parts q)).

Fixpoint lookup (files : list (string * string)) (p : Path) : option string :=
  match files with
  | [] => None
  | (name, content) :: rest =>
      if bool_decide (PathLib.of_string name = p) then Some content
      else lookup rest p
  end.

Definition make (cwd : string) (files : list (string * string)) : FileSystem :=
  let here := PathLib.of_string cwd in
  mkFS (fun p => bool_decide (is_Some (lookup files (resolve here p))))
       (fun p => lookup files (resolve here p))
       (resolve here).

End MemFS.

(** Joining the lines of a file. *)
Definition text (lines : list string) : string := Str.join nl lines.

(** * Properties *)

(** ** Vocabulary of the statements *)

(** The message of the exception raised on a cycle. *)
Definition circular_msg (p : Path) : string :=
  "Circular dependency detected: " +:+ PathLib.to_string p.

(** The provenance line put before an inlined file. *)
Definition marker (p : Path) : string :=
  "// Inlined from: " +:+ PathLib.to_string p.

(** The inlining policy: the guard of the first or of the second branch of
    the [if]/[elif] chain of [process_file] holds. *)
Definition wants_inline (self : CppFusioner) (include_name : string)
           (include_path : Path) : bool :=
  (inline_headers self && bool_decide (get_file_type include_path = HEADER))
  || (inline_sources self
      && (bool_decide (get_file_type include_path = SOURCE)
          || Str.eqb include_name "src/gtest-internal-inl.h"
          || Str.eqb include_name "gtest/gtest-spi.h")).

(** What is printed when a file is inlined. *)
Definition inline_msg (self : CppFusioner) (include_name : string)
           (include_path : Path) : string :=
  if inline_headers self && bool_decide (get_file_type include_path = HEADER)
  then "inline header " +:+ include_name
  else "inline source " +:+ include_name.

(** The state after a file was inlined from state [self1]. *)
Definition after_inline (msg : string) (include_path : Path)
           (self1 : CppFusioner) : CppFusioner :=
  set_already_inlined (already_inlined self1 ∪ {[include_path]})
                      (set_stderr (stderr self1 ++ [msg]) self1).

(** A line that reaches the resolver: it matches the pattern and holds no
    opening angle bracket. *)
Definition resolved_directive (line include_name : string) : Prop :=
  (exists m, Re.match_include line = Some m /\ Re.group1 m = include_name)
  /\ Str.contains Re.langle line = false.

(** Two states of one engine: the configuration never changes. *)
Definition same_config (a b : CppFusioner) : Prop :=
  include_paths a = include_paths b
  /\ inline_headers a = inline_headers b
  /\ inline_sources a = inline_sources b.

Lemma same_config_refl a : same_config a a.
Proof. repeat split. Qed.

Lemma same_config_trans a b c :
  same_config a b -> same_config b c -> same_config a c.
Proof. unfold same_config; intuition congruence. Qed.

Lemma find_include_file_config fs a b name dir :
  same_config a b -> find_include_file fs a name dir = find_include_file fs b name dir.
Proof. intros (H & _). unfold find_include_file. now rewrite H. Qed.

Lemma wants_inline_config a b name p :
  same_config a b -> wants_inline a name p = wants_inline b name p.
Proof. intros (_ & H1 & H2). unfold wants_inline. now rewrite H1, H2. Qed.

(** ** One line of the loop, case by case *)

Section LineCases.

Variable fs : FileSystem.
Variable rec : Path -> M ProcessedFile.
Variables file_path abs_path : Path.

(** A line that is inlined: the recursive call decides the result. *)
Lemma process_line_inline line name ip pl self :
  resolved_directive line name ->
  find_include_file fs self name (PathLib.parent abs_path) = Some ip ->
  ip ∉ already_inlined self ->
  wants_inline self name ip = true ->
  process_line fs rec file_path abs_path line pl self =
    match rec ip self with
    | (Return f, self1) =>
        (Return (pl ++ [marker ip; pf_content f]),
         after_inline (inline_msg self name ip) ip self1)
    | (Raise e, self1) => (Raise e, self1)
    | (OutOfFuel, self1) => (OutOfFuel, self1)
    end.
Proof.
  intros [(m & Hm & <-) Hlt] Hfind Hnot Hpol.
  unfold process_line. rewrite Hm, Hlt.
  unfold bind at 1. unfold gets at 1. unfold id. rewrite Hfind.
  unfold in_already_inlined. rewrite bool_decide_eq_false_2 by exact Hnot.
  unfold wants_inline in Hpol. unfold inline_msg, marker, after_inline.
  destruct (inline_headers self
            && bool_decide (get_file_type ip = HEADER)) eqn:E1.
  - unfold bind, print, inlined_add, modify, ret.
    destruct (rec ip self) as [[f|e|] self1]; try reflexivity.
    rewrite <- app_assoc. reflexivity.
  - simpl in Hpol. rewrite Hpol.
    unfold bind, print, inlined_add, modify, ret.
    destruct (rec ip self) as [[f|e|] self1]; try reflexivity.
    rewrite <- app_assoc. reflexivity.
Qed.

(** Every way a line can be processed: either nothing is called and only
    [stderr] grows, or the line is inlined. *)
Lemma process_line_cases line pl self r self' :
  process_line fs rec file_path abs_path line pl self = (r, self') ->
  (exists out msgs,
      r = Return out /\ self' = set_stderr (stderr self ++ msgs) self
      /\ (out = pl \/ out = pl ++ [line] \/ out = pl ++ ["//" +:+ line]))
  \/ (exists name ip,
         resolved_directive line name
         /\ find_include_file fs self name (PathLib.parent abs_path) = Some ip
         /\ (ip ∉ already_inlined self)
         /\ wants_inline self name ip = true).
Proof.
  unfold process_line.
  destruct (Re.match_include line) as [m|] eqn:Hm.
  2:{ unfold ret. intros [= <- <-]. left. exists (pl ++ [line]), [].
      repeat split; [|tauto].
      destruct self; unfold set_stderr; simpl. now rewrite app_nil_r. }
  destruct (Str.contains Re.langle line) eqn:Hlt.
  { unfold bind, print, modify, ret. intros [= <- <-]. left.
    eexists _, [_]. repeat split; tauto. }
  unfold bind at 1. unfold gets at 1. unfold id.
  destruct (find_include_file fs self (Re.group1 m) (PathLib.parent abs_path))
    as [ip|] eqn:Hfind.
  2:{ unfold in_already_inlined, bind, print, modify, ret.
      intros [= <- <-]. left. eexists _, [_]. repeat split; tauto. }
  unfold in_already_inlined.
  destruct (bool_decide (ip ∈ already_inlined self)) eqn:Hin.
  { unfold bind, print, modify, ret. intros [= <- <-]. left.
    eexists _, [_]. repeat split; tauto. }
  apply bool_decide_eq_false in Hin.
  destruct (wants_inline self (Re.group1 m) ip) eqn:Hpol.
  { intros _. right. exists (Re.group1 m), ip.
    repeat split; eauto. }
  unfold wants_inline in Hpol.
  apply orb_false_iff in Hpol as [-> ->].
  destruct (Str.startswith "gtest/" (Re.group1 m)
            && negb (Str.eqb (Re.group1 m) "gtest/gtest.h")).
  - unfold bind, print, modify, ret. intros [= <- <-]. left.
    eexists _, [_]. repeat split; tauto.
  - unfold bind, print, modify, ret. intros [= <- <-]. left.
    eexists _, [_]. repeat split; tauto.
Qed.

End LineCases.

(** ** What every step of the engine leaves alone *)

(** The exceptions that come out of the engine: the one it raises itself,
    and a failed read. *)
Definition engine_error (e : exn) : Prop :=
  (exists q, e = Exception (circular_msg q)) \/ (exists q, e = OSError q).

(** A computation that keeps the configuration, only adds to
    [already_inlined], gives back the [processing_stack] it found and
    raises nothing but engine errors. *)
Definition well_behaved {A} (m : M A) : Prop :=
  forall self r self',
    m self = (r, self') ->
    same_config self self'
    /\ already_inlined self ⊆ already_inlined self'
    /\ (r <> OutOfFuel -> processing_stack self' = processing_stack self)
    /\ (forall e, r = Raise e -> engine_error e).

Lemma set_stderr_fields l self :
  same_config self (set_stderr l self)
  /\ already_inlined (set_stderr l self) = already_inlined self
  /\ processing_stack (set_stderr l self) = processing_stack self.
Proof. repeat split. Qed.

Lemma after_inline_fields msg ip self :
  same_config self (after_inline msg ip self)
  /\ already_inlined (after_inline msg ip self) = already_inlined self ∪ {[ip]}
  /\ processing_stack (after_inline msg ip self) = processing_stack self.
Proof. repeat split. Qed.

Ltac wb_from Hc Hi Hs He :=
  split; [exact Hc|split; [exact Hi|split;
    [let X := fresh in
     intros X; try (exfalso; apply X; reflexivity); apply Hs; discriminate
    |let e := fresh in let X := fresh in
     intros e X; try discriminate X; apply (He e); congruence]]].

Section WellBehaved.

Variable fs : FileSystem.

Lemma process_line_well_behaved rec file_path abs_path line pl :
  (forall p, well_behaved (rec p)) ->
  well_behaved (process_line fs rec file_path abs_path line pl).
Proof.
  intros Hrec self r self' H.
  destruct (process_line_cases _ _ _ _ _ _ _ _ _ H)
    as [(out & msgs & -> & -> & _)|(name & ip & Hd & Hf & Hn & Hp)].
  - repeat split; try done.
  - rewrite (process_line_inline _ _ _ _ _ _ _ _ _ Hd Hf Hn Hp) in H.
    destruct (rec ip self) as [r1 self1] eqn:Hr.
    destruct (Hrec _ _ _ _ Hr) as (Hc & Hi & Hs & He).
    destruct r1 as [f|e|]; injection H as <- <-.
    + destruct (after_inline_fields (inline_msg self name ip) ip self1)
        as (Hc' & Hi' & Hs').
      split; [eapply same_config_trans; eassumption|].
      split; [rewrite Hi'; etransitivity; [exact Hi|apply union_subseteq_l]|].
      split; [intros _; rewrite Hs'; now apply Hs|done].
    + wb_from Hc Hi Hs He.
    + wb_from Hc Hi Hs He.
Qed.

Lemma process_lines_well_behaved rec file_path abs_path lines :
  (forall p, well_behaved (rec p)) ->
  forall pl, well_behaved (process_lines fs rec file_path abs_path lines pl).
Proof.
  intros Hrec. induction lines as [|line rest IH]; intros pl self r self' H.
  - injection H as <- <-. repeat split; try done.
  - simpl in H. unfold bind in H.
    destruct (process_line fs rec file_path abs_path line pl self)
      as [r1 self1] eqn:Hl.
    destruct (process_line_well_behaved _ _ _ _ _ Hrec _ _ _ Hl)
      as (Hc & Hi & Hs & He).
    destruct r1 as [pl1|e|].
    + destruct (IH _ _ _ _ H) as (Hc' & Hi' & Hs' & He').
      split; [eapply same_config_trans; eassumption|].
      split; [etransitivity; eassumption|].
      split; [|done].
      intros Hr. rewrite (Hs' Hr). now apply Hs.
    + injection H as <- <-. wb_from Hc Hi Hs He.
    + injection H as <- <-. wb_from Hc Hi Hs He.
Qed.

Lemma process_file_well_behaved fuel :
  forall file_path, well_behaved (process_file fs fuel file_path).
Proof.
  induction fuel as [|fuel IH]; intros file_path self r self' H.
  - injection H as <- <-. repeat split; try done.
  - simpl in H. unfold bind at 1 in H. unfold gets at 1 in H.
    destruct (decide (fs_resolve fs file_path ∈ processing_stack self))
      as [Hin|Hin].
    { injection H as <- <-. repeat split; try done.
      intros e [= <-]. left. eexists. reflexivity. }
    unfold bind at 1 in H. unfold stack_add, modify in H.
    set (abs_path := fs_resolve fs file_path) in *.
    set (self0 := set_processing_stack _ self) in H.
    unfold try_finally in H.
    match type of H with
    | context [match ?body self0 with _ => _ end] =>
        destruct (body self0) as [r1 self1] eqn:Hbody
    end.
    assert (Hb : same_config self0 self1
                 /\ already_inlined self0 ⊆ already_inlined self1
                 /\ (r1 <> OutOfFuel ->
                     processing_stack self1 = processing_stack self0)
                 /\ (forall e, r1 = Raise e -> engine_error e)).
    { unfold bind at 1 in Hbody. unfold read_file in Hbody.
      destruct (fs_read fs abs_path) as [content|].
      - unfold ret at 1 in Hbody. unfold bind in Hbody.
        destruct (process_lines fs (process_file fs fuel) file_path abs_path
                    (Str.split newline content) [] self0)
          as [r2 self2] eqn:Hl.
        destruct (process_lines_well_behaved _ _ _ _ IH _ _ _ _ Hl)
          as (Hc & Hi & Hs & He).
        destruct r2; injection Hbody as <- <-; wb_from Hc Hi Hs He.
      - injection Hbody as <- <-. repeat split; try done.
        intros e [= <-]. right. eexists. reflexivity. }
    destruct Hb as (Hc & Hi & Hs & He).
    assert (Hrm : r1 <> OutOfFuel ->
                  stack_remove abs_path self1
                  = (Return tt,
                     set_processing_stack (processing_stack self) self1)).
    { intros Hr. unfold stack_remove. rewrite (Hs Hr).
      unfold self0; simpl.
      rewrite decide_True
        by (apply elem_of_union_r, elem_of_singleton_2; reflexivity).
      do 2 f_equal. apply set_eq. intros x.
      rewrite elem_of_difference, elem_of_union, elem_of_singleton.
      split; [tauto|]. intros Hx. split; [tauto|]. now intros ->. }
    destruct r1 as [f|e|].
    + rewrite Hrm in H by done. injection H as <- <-.
      split; [exact Hc|split; [exact Hi|split; [done|done]]].
    + rewrite Hrm in H by done. injection H as <- <-.
      split; [exact Hc|split; [exact Hi|split; [done|]]].
      intros e' [= <-]. now apply He.
    + injection H as <- <-.
      split; [exact Hc|split; [exact Hi|split; [done|done]]].
Qed.

End WellBehaved.

(** ** The resolver *)

Section Resolver.

Variable fs : FileSystem.

Lemma search_include_paths_None name paths :
  search_include_paths fs name paths = None
  <-> forall d, d ∈ paths -> fs_exists fs (d // name) = false.
Proof.
  induction paths as [|d rest IH]; simpl.
  - split; [intros _ d Hd; inversion Hd|reflexivity].
  - destruct (fs_exists fs (d // name)) eqn:E.
    + split; [discriminate|].
      intros H. rewrite H in E by left. discriminate.
    + rewrite IH. split.
      * intros H d' Hd'. apply elem_of_cons in Hd' as [->|Hd']; auto.
      * intros H d' Hd'. apply H. now right.
Qed.

Lemma search_include_paths_first name before d after :
  (forall d', d' ∈ before -> fs_exists fs (d' // name) = false) ->
  fs_exists fs (d // name) = true ->
  search_include_paths fs name (before ++ d :: after) = Some (d // name).
Proof.
  induction before as [|b before IH]; intros Hbefore Hd; simpl.
  - now rewrite Hd.
  - rewrite (Hbefore b) by left. apply IH; [|exact Hd].
    intros d' Hd'. apply Hbefore. now right.
Qed.

(** C7. [find_include_file] returns [current_dir / include_name] when it
    exists; otherwise [d / include_name] for the first directory [d] of
    [include_paths], in list order, at which it exists; and [None]
    exactly when no candidate exists. *)
Theorem find_include_file_first_match_wins self include_name current_dir :
  (fs_exists fs (current_dir // include_name) = true ->
   find_include_file fs self include_name current_dir
   = Some (current_dir // include_name))
  /\ (forall before d after,
         fs_exists fs (current_dir // include_name) = false ->
         include_paths self = before ++ d :: after ->
         (forall d', d' ∈ before -> fs_exists fs (d' // include_name) = false) ->
         fs_exists fs (d // include_name) = true ->
         find_include_file fs self include_name current_dir
         = Some (d // include_name))
  /\ (find_include_file fs self include_name current_dir = None
      <-> fs_exists fs (current_dir // include_name) = false
          /\ forall d, d ∈ include_paths self ->
                       fs_exists fs (d // include_name) = false).
Proof.
  unfold find_include_file. split; [|split].
  - now intros ->.
  - intros before d after -> -> Hbefore Hd.
    now apply search_include_paths_first.
  - destruct (fs_exists fs (current_dir // include_name)).
    + split; [discriminate|intros [? _]; discriminate].
    + rewrite search_include_paths_None. tauto.
Qed.

End Resolver.

(** Two directories of the search path hold [b.h]; the first one wins. *)
Definition shadow_fs : FileSystem :=
  MemFS.make "/proj" [("/proj/src/a.h", text ["#include " +:+ quoted "b.h"]);
                      ("/proj/one/b.h", text ["int one;"]);
                      ("/proj/two/b.h", text ["int two;"])].

Lemma find_include_file_first_match_wins_witness :
  find_include_file shadow_fs
                    (CppFusioner_init ["zero"; "one"; "two"] true false)
                    "b.h" (PathLib.of_string "/proj/src")
  = Some (PathLib.of_string "one/b.h")
  /\ find_include_file shadow_fs
                       (CppFusioner_init ["zero"; "one"; "two"] true false)
                       "a.h" (PathLib.of_string "/proj/src")
     = Some (PathLib.of_string "/proj/src/a.h").
Proof.
  split.
  - apply (proj1 (proj2 (find_include_file_first_match_wins shadow_fs
                           (CppFusioner_init ["zero"; "one"; "two"] true false)
                           "b.h" (PathLib.of_string "/proj/src")))
             [PathLib.of_string "zero"] (PathLib.of_string "one")
             [PathLib.of_string "two"]).
    + reflexivity.
    + reflexivity.
    + intros d Hd. apply list_elem_of_singleton in Hd as ->. reflexivity.
    + reflexivity.
  - apply (proj1 (find_include_file_first_match_wins shadow_fs
                    (CppFusioner_init ["zero"; "one"; "two"] true false)
                    "a.h" (PathLib.of_string "/proj/src"))).
    reflexivity.
Defined.

(** ** The shape of an include line *)

Module Shape.

(** Every character of [s] satisfies [f]. *)
Fixpoint all (f : ascii -> bool) (s : string) : bool :=
  match s with
  | EmptyString => true
  | String c r => f c && all f r
  end.

(** The lines the pattern accepts, read off the regular expression: the
    literal, a run of white space, an opening delimiter, a non-empty
    reference without closing delimiter characters, a closing delimiter,
    and anything after it. *)
Definition accepts (line : string) (m : Re.Match) : Prop :=
  exists ws rest,
    line = "#include" +:+ ws +:+ String (Re.m_open m)
                      (Re.group1 m +:+ String (Re.m_close m) rest)
    /\ all Str.is_space ws = true
    /\ Re.is_open (Re.m_open m) = true
    /\ Re.group1 m <> EmptyString
    /\ all (fun c => negb (Re.is_close c)) (Re.group1 m) = true
    /\ Re.is_close (Re.m_close m) = true.

Lemma literal_Some p s after :
  Re.literal p s = Some after <-> s = p +:+ after.
Proof.
  revert s; induction p as [|a p IH]; intros s; simpl.
  - split; [now intros [= ->]|now intros ->].
  - destruct s as [|b s].
    + split; discriminate.
    + destruct (Ascii.eqb_spec a b) as [->|Hne].
      * rewrite IH. split; [now intros ->|now intros [= ->]].
      * split; [discriminate|intros [= -> _]; now destruct Hne].
Qed.

Lemma spaces_split s :
  exists ws, s = ws +:+ Re.spaces s /\ all Str.is_space ws = true.
Proof.
  induction s as [|c s (ws & IH & Hws)]; simpl.
  - now exists EmptyString.
  - destruct (Str.is_space c) eqn:E.
    + exists (String c ws). split; [|simpl; now rewrite E, Hws].
      change (String c ws +:+ Re.spaces s)
        with (String c (ws +:+ Re.spaces s)).
      now f_equal.
    + now exists EmptyString.
Qed.

Lemma spaces_skip ws o r :
  all Str.is_space ws = true -> Str.is_space o = false ->
  Re.spaces (ws +:+ String o r) = String o r.
Proof.
  intros Hws Ho. induction ws as [|c ws IH]; simpl in *.
  - now rewrite Ho.
  - apply andb_true_iff in Hws as [-> Hws]. auto.
Qed.

Lemma is_open_not_space o : Re.is_open o = true -> Str.is_space o = false.
Proof.
  unfold Re.is_open. intros H. apply orb_true_iff in H as [H|H];
    apply Ascii.eqb_eq in H; subst; reflexivity.
Qed.

Lemma span_split s :
  let '(n, rest) := Re.span s in
  s = n +:+ rest
  /\ all (fun c => negb (Re.is_close c)) n = true
  /\ match rest with
     | String c _ => Re.is_close c = true
     | EmptyString => True
     end.
Proof.
  induction s as [|c s IH]; simpl.
  - auto.
  - destruct (Re.is_close c) eqn:E.
    + simpl. rewrite E. auto.
    + destruct (Re.span s) as [n rest]. destruct IH as (-> & Hn & Hr).
      simpl. rewrite E, Hn. auto.
Qed.

Lemma span_stop n c rest :
  all (fun c => negb (Re.is_close c)) n = true -> Re.is_close c = true ->
  Re.span (n +:+ String c rest) = (n, String c rest).
Proof.
  intros Hn Hc. induction n as [|a n IH]; simpl in *.
  - now rewrite Hc.
  - apply andb_true_iff in Hn as [Ha Hn].
    apply negb_true_iff in Ha. rewrite Ha, IH; auto.
Qed.

(** The scan of [Re.match_include] accepts exactly the lines of the
    pattern, and finds the one decomposition there is. *)
Lemma match_include_accepts line m :
  Re.match_include line = Some m <-> accepts line m.
Proof.
  unfold Re.match_include, accepts. split.
  - destruct (Re.literal "#include" line) as [after|] eqn:Hlit; [|discriminate].
    apply literal_Some in Hlit.
    destruct (spaces_split after) as (ws & Hafter & Hws).
    destruct (Re.spaces after) as [|o r]; [discriminate|].
    destruct (Re.is_open o) eqn:Ho; [|discriminate].
    pose proof (span_split r) as Hspan.
    destruct (Re.span r) as [n rest]. destruct Hspan as (-> & Hn & Hrest).
    destruct n as [|a n]; [discriminate|].
    destruct rest as [|c rest]; [discriminate|].
    intros [= <-]. exists ws, rest. simpl.
    repeat split; try assumption; try discriminate.
    rewrite Hlit, Hafter. reflexivity.
  - intros (ws & rest & -> & Hws & Ho & Hne & Hn & Hc).
    destruct m as [o n c]; cbn [Re.m_open Re.group1 Re.m_close] in *.
    assert (Hlit : Re.literal "#include"
                     ("#include" +:+ ws +:+ String o (n +:+ String c rest))
                   = Some (ws +:+ String o (n +:+ String c rest)))
      by now apply literal_Some.
    rewrite Hlit.
    rewrite spaces_skip by auto using is_open_not_space.
    rewrite Ho, span_stop by assumption.
    destruct n; [contradiction|reflexivity].
Qed.

End Shape.

(** The include line as the specification describes it, for comparison
    with the pattern of the code: optional leading white space, the token
    [#include], optional white space, then a reference between a matching
    pair of angle brackets or a matching pair of double quotes, the
    reference holding no closing delimiter of its pair. *)

Module Spec.

(** [s] is a non-empty reference without [close], then [close]. *)
Fixpoint closed_by (close : ascii) (seen : bool) (s : string) : bool :=
  match s with
  | EmptyString => false
  | String c r => if Ascii.eqb c close then seen else closed_by close true r
  end.

Definition is_directive (line : string) : bool :=
  match Re.literal "#include" (Re.spaces line) with
  | Some after =>
      match Re.spaces after with
      | String o r =>
          if Ascii.eqb o Re.langle then closed_by Re.rangle false r
          else if Ascii.eqb o Re.dquote then closed_by Re.dquote false r
          else false
      | EmptyString => false
      end
  | None => false
  end.

End Spec.

(** The engine treats a line as an include line when the pattern matches. *)
Definition treated_as_directive (line : string) : bool :=
  bool_decide (is_Some (Re.match_include line)).

(** C6, as the code has it.  The pattern is matched at the first
    character of the line: a line is an include line exactly when it is
    [#include], white space, an opening [<] or double quote, a non-empty
    reference holding neither [>] nor a double quote, and a closing [>] or
    double quote (which need not pair with the opening one); [group1] is
    that reference.  Every other line is appended to the output as it
    is, and the state is untouched. *)
Theorem include_line_shape (line : string) :
  (forall m, Re.match_include line = Some m <-> Shape.accepts line m)
  /\ (treated_as_directive line = false ->
      forall fs rec file_path abs_path pl self,
        process_line fs rec file_path abs_path line pl self
        = (Return (pl ++ [line]), self)).
Proof.
  split.
  - intros m. apply Shape.match_include_accepts.
  - unfold treated_as_directive. intros H fs rec fp ap pl self.
    apply bool_decide_eq_false in H. unfold process_line.
    destruct (Re.match_include line); [|reflexivity].
    destruct H. eexists; reflexivity.
Qed.

Definition indented_include : string := "  #include " +:+ quoted "b.h".
Definition unpaired_include : string := "#include <b.h" +:+ String Re.dquote "".

Lemma include_line_shape_witness :
  treated_as_directive indented_include = false
  /\ forall pl self,
      process_line (MemFS.make "/" []) (fun _ => out_of_fuel)
                   (PathLib.of_string "a.h") (PathLib.of_string "/a.h")
                   indented_include pl self
      = (Return (pl ++ [indented_include]), self).
Proof.
  split; [reflexivity|].
  intros pl self.
  apply (proj2 (include_line_shape indented_include)). reflexivity.
Defined.

(** C6 as the specification words it fails twice: an indented include
    line has the specified shape and is not treated as an include line,
    and a line whose delimiters do not pair is treated as one. *)
Lemma include_line_shape_counterexample :
  (Spec.is_directive indented_include = true
   /\ treated_as_directive indented_include = false)
  /\ (Spec.is_directive unpaired_include = false
      /\ treated_as_directive unpaired_include = true).
Proof. repeat split. Qed.

(** ** The output of [fuse_file] *)

(** C9. The text written by [fuse_file] is the processed content between
    the guard lines when the processed top-level file is a header, with
    the guard [FUSED_<STEM>_H] made from the upper-cased stem of the input
    path, and the processed content alone otherwise. *)
Theorem fuse_file_guard fs fuel input_file output_file self processed self' :
  process_file fs fuel (PathLib.of_string input_file) self
  = (Return processed, self') ->
  let guard_name :=
    "FUSED_" +:+ Str.upper (PathLib.stem (PathLib.of_string input_file))
             +:+ "_H" in
  fuse_file fs fuel input_file output_file self
  = (Return (if bool_decide (pf_type processed = HEADER)
             then text [ "#ifndef " +:+ guard_name;
                         "#define " +:+ guard_name;
                         "";
                         pf_content processed;
                         "";
                         "#endif  // " +:+ guard_name ]
             else pf_content processed),
     self').
Proof.
  intros H guard_name. unfold fuse_file, bind. rewrite H. unfold ret.
  destruct (bool_decide (pf_type processed = HEADER)); reflexivity.
Qed.

Definition foo_fs : FileSystem :=
  MemFS.make "/proj" [("/proj/foo.h", text ["int foo();"]);
                      ("/proj/foo.cc", text ["int foo() { return 1; }"])].

Lemma fuse_file_guard_witness :
  fst (fuse_file foo_fs 2 "foo.h" "fused.h" (CppFusioner_init ["."] true false))
  = Return (text [ "#ifndef FUSED_FOO_H";
                   "#define FUSED_FOO_H";
                   "";
                   "int foo();";
                   "";
                   "#endif  // FUSED_FOO_H" ])
  /\ fst (fuse_file foo_fs 2 "foo.cc" "fused.cc"
                    (CppFusioner_init ["."] false true))
     = Return "int foo() { return 1; }".
Proof.
  split.
  - eassert (H : process_file foo_fs 2 (PathLib.of_string "foo.h")
                   (CppFusioner_init ["."] true false) = (Return _, _))
      by (vm_compute; reflexivity).
    rewrite (fuse_file_guard _ _ _ "fused.h" _ _ _ H). reflexivity.
  - eassert (H : process_file foo_fs 2 (PathLib.of_string "foo.cc")
                   (CppFusioner_init ["."] false true) = (Return _, _))
      by (vm_compute; reflexivity).
    rewrite (fuse_file_guard _ _ _ "fused.cc" _ _ _ H). reflexivity.
Defined.

(** ** One call of [process_file], unfolded *)

Lemma set_processing_stack_same self :
  set_processing_stack (processing_stack self) self = self.
Proof. now destruct self. Qed.

Section Calls.

Variable fs : FileSystem.

Lemma process_lines_app rec file_path abs_path before after pl self :
  process_lines fs rec file_path abs_path (before ++ after) pl self =
    match process_lines fs rec file_path abs_path before pl self with
    | (Return pl1, self1) =>
        process_lines fs rec file_path abs_path after pl1 self1
    | (Raise e, self1) => (Raise e, self1)
    | (OutOfFuel, self1) => (OutOfFuel, self1)
    end.
Proof.
  revert pl self. induction before as [|line before IH]; intros pl self.
  - reflexivity.
  - simpl. unfold bind.
    destruct (process_line fs rec file_path abs_path line pl self)
      as [[pl1|e|] self1]; auto.
Qed.

(** The state in which the lines of a file are processed: the caller's,
    with the resolved path of the file on the stack. *)
Definition entered (abs_path : Path) (self : CppFusioner) : CppFusioner :=
  set_processing_stack (processing_stack self ∪ {[abs_path]}) self.

(** A call that passes the cycle check reads the file, runs the loop
    with its path on the stack and takes the path off again, whether the
    loop returns or raises. *)
Lemma process_file_step fuel file_path self :
  fs_resolve fs file_path ∉ processing_stack self ->
  process_file fs (S fuel) file_path self =
    let abs_path := fs_resolve fs file_path in
    match fs_read fs abs_path with
    | None => (Raise (OSError abs_path), self)
    | Some content =>
        match process_lines fs (process_file fs fuel) file_path abs_path
                            (Str.split newline content) []
                            (entered abs_path self) with
        | (Return pl, self1) =>
            (Return (mkProcessedFile abs_path (Str.join nl pl)
                                     (get_file_type abs_path)),
             set_processing_stack (processing_stack self) self1)
        | (Raise e, self1) =>
            (Raise e, set_processing_stack (processing_stack self) self1)
        | (OutOfFuel, self1) => (OutOfFuel, self1)
        end
    end.
Proof.
  intros Hin. cbv zeta. simpl. unfold bind at 1. unfold gets at 1.
  rewrite decide_False by exact Hin.
  unfold bind at 1. unfold stack_add, modify.
  fold (entered (fs_resolve fs file_path) self).
  set (abs_path := fs_resolve fs file_path) in *.
  assert (Hrm : forall self1,
             processing_stack self1 = processing_stack (entered abs_path self) ->
             stack_remove abs_path self1
             = (Return tt, set_processing_stack (processing_stack self) self1)).
  { intros self1 Hs. unfold stack_remove. rewrite Hs. simpl.
    rewrite decide_True by (apply elem_of_union_r, elem_of_singleton_2;
                            reflexivity).
    do 2 f_equal. apply set_eq. intros x.
    rewrite elem_of_difference, elem_of_union, elem_of_singleton.
    split; [tauto|]. intros Hx. split; [tauto|]. now intros ->. }
  unfold try_finally, bind at 1, read_file.
  destruct (fs_read fs abs_path) as [content|].
  - unfold ret at 1. unfold bind.
    destruct (process_lines fs (process_file fs fuel) file_path abs_path
                (Str.split newline content) [] (entered abs_path self))
      as [r1 self1] eqn:Hl.
    destruct (process_lines_well_behaved fs _ file_path abs_path
                (Str.split newline content)
                (process_file_well_behaved fs fuel) _ _ _ _ Hl)
      as (_ & _ & Hs & _).
    destruct r1 as [pl|e|].
    + unfold ret. rewrite Hrm by (apply Hs; discriminate). reflexivity.
    + rewrite Hrm by (apply Hs; discriminate). reflexivity.
    + reflexivity.
  - unfold raise. rewrite Hrm by reflexivity.
    unfold entered. destruct self; reflexivity.
Qed.

(** [Calls (S fuel) p self fuel q self_q]: processing [p] from [self]
    comes, after some lines, to a line that it inlines, and there calls
    [process_file] on [q] in state [self_q]. *)
Inductive Calls : nat -> Path -> CppFusioner -> nat -> Path -> CppFusioner -> Prop :=
| Calls_intro fuel file_path self content before line after pl self1 name ip :
    fs_resolve fs file_path ∉ processing_stack self ->
    fs_read fs (fs_resolve fs file_path) = Some content ->
    Str.split newline content = before ++ line :: after ->
    process_lines fs (process_file fs fuel) file_path (fs_resolve fs file_path)
                  before [] (entered (fs_resolve fs file_path) self)
    = (Return pl, self1) ->
    resolved_directive line name ->
    find_include_file fs self1 name
                      (PathLib.parent (fs_resolve fs file_path)) = Some ip ->
    ip ∉ already_inlined self1 ->
    wants_inline self1 name ip = true ->
    Calls (S fuel) file_path self fuel ip self1.

(** The chain of calls from the top-level call down to a call on [q],
    with the resolved paths of the frames above it, outermost first. *)
Inductive CallChain (fuel0 : nat) (top : Path) (self0 : CppFusioner)
  : list Path -> nat -> Path -> CppFusioner -> Prop :=
| chain_top : CallChain fuel0 top self0 [] fuel0 top self0
| chain_call frames fuel p self fuel' q self_q :
    CallChain fuel0 top self0 frames fuel p self ->
    Calls fuel p self fuel' q self_q ->
    CallChain fuel0 top self0 (frames ++ [fs_resolve fs p]) fuel' q self_q.

Lemma Calls_stack fuel p self fuel' q self_q :
  Calls fuel p self fuel' q self_q ->
  processing_stack self_q = processing_stack self ∪ {[fs_resolve fs p]}
  /\ same_config self self_q.
Proof.
  intros H. inversion H; subst.
  match goal with
  | Hl : process_lines _ _ _ _ _ _ _ = _ |- _ =>
      destruct (process_lines_well_behaved fs _ _ _ _
                  (process_file_well_behaved fs fuel') _ _ _ _ Hl)
        as (Hc & _ & Hs & _)
  end.
  split; [now apply Hs|exact Hc].
Qed.

(** An exception of the called file comes out of the calling one. *)
Lemma Calls_raise fuel p self fuel' q self_q e self_q' :
  Calls fuel p self fuel' q self_q ->
  process_file fs fuel' q self_q = (Raise e, self_q') ->
  process_file fs fuel p self
  = (Raise e, set_processing_stack (processing_stack self) self_q').
Proof.
  intros H Hq. inversion H; subst.
  rewrite process_file_step by assumption. cbv zeta.
  match goal with Hr : fs_read _ _ = _ |- _ => rewrite Hr end.
  match goal with Hsp : Str.split _ _ = _ |- _ => rewrite Hsp end.
  rewrite process_lines_app.
  match goal with Hl : process_lines _ _ _ _ _ _ _ = _ |- _ => rewrite Hl end.
  simpl. unfold bind.
  erewrite process_line_inline by eassumption.
  rewrite Hq. reflexivity.
Qed.

Lemma CallChain_raise fuel0 top self0 frames fuel q self_q e self_q' :
  CallChain fuel0 top self0 frames fuel q self_q ->
  process_file fs fuel q self_q = (Raise e, self_q') ->
  exists self', process_file fs fuel0 top self0 = (Raise e, self').
Proof.
  intros Hchain. revert e self_q'.
  induction Hchain as [|frames fuel p self fuel' q self_q Hchain IH Hcall];
    intros e self_q' Hq.
  - eauto.
  - eapply IH. eapply Calls_raise; eassumption.
Qed.

Lemma CallChain_stack fuel0 top self0 frames fuel q self_q :
  CallChain fuel0 top self0 frames fuel q self_q ->
  processing_stack self_q = processing_stack self0 ∪ list_to_set frames.
Proof.
  induction 1 as [|frames fuel p self fuel' q self_q Hchain IH Hcall].
  - simpl. apply set_eq. intros x. rewrite elem_of_union, elem_of_empty. tauto.
  - destruct (Calls_stack _ _ _ _ _ _ Hcall) as [-> _]. rewrite IH.
    rewrite list_to_set_app_L. simpl.
    apply set_eq. intros x.
    rewrite !elem_of_union, elem_of_singleton, elem_of_empty. tauto.
Qed.

End Calls.

(** ** Cycles *)

(** C1. When the run comes to a call of [process_file] on a file whose
    resolved path is on the processing stack, that call raises the
    circular-dependency exception naming that path at once, with the state
    untouched (nothing read, nothing pushed, nothing printed); the
    exception comes out of the top-level call, which leaves the stack as
    it found it; and the path named is on the chain of calls (or was on
    the stack before the run). *)
Theorem circular_dependency_raised fs fuel0 top self0 frames fuel q self_q :
  CallChain fs fuel0 top self0 frames (S fuel) q self_q ->
  fs_resolve fs q ∈ processing_stack self_q ->
  process_file fs (S fuel) q self_q
  = (Raise (Exception (circular_msg (fs_resolve fs q))), self_q)
  /\ (exists self',
         process_file fs fuel0 top self0
         = (Raise (Exception (circular_msg (fs_resolve fs q))), self')
         /\ processing_stack self' = processing_stack self0)
  /\ (fs_resolve fs q ∈ processing_stack self0 \/ fs_resolve fs q ∈ frames).
Proof.
  intros Hchain Hin.
  assert (Hq : process_file fs (S fuel) q self_q
               = (Raise (Exception (circular_msg (fs_resolve fs q))), self_q)).
  { simpl. unfold bind, gets. rewrite decide_True by exact Hin. reflexivity. }
  split; [exact Hq|split].
  - destruct (CallChain_raise _ _ _ _ _ _ _ _ _ _ Hchain Hq) as [self' Htop].
    exists self'. split; [exact Htop|].
    destruct (process_file_well_behaved fs fuel0 top _ _ _ Htop)
      as (_ & _ & Hs & _).
    apply Hs. discriminate.
  - rewrite (CallChain_stack _ _ _ _ _ _ _ _ Hchain) in Hin.
    apply elem_of_union in Hin as [Hin|Hin]; [now left|right].
    now apply elem_of_list_to_set in Hin.
Qed.

(** [a.h] includes [b.h], and [b.h] includes [a.h]. *)
Definition cyclic_fs : FileSystem :=
  MemFS.make "/proj" [("/proj/a.h", text ["#include " +:+ quoted "b.h"]);
                      ("/proj/b.h", text ["#include " +:+ quoted "a.h"])].

Definition header_run : CppFusioner := CppFusioner_init ["."] true false.

Ltac by_computation := vm_compute; reflexivity.

Ltac not_in_set := apply (proj1 (bool_decide_eq_false _)); by_computation.
Ltac in_set := apply (proj1 (bool_decide_eq_true _)); by_computation.

Ltac first_line_calls :=
  match goal with
  | |- Calls ?fs (S ?fuel) ?p ?self ?fuel ?q ?self_q =>
      eapply (Calls_intro fs fuel p self _ [] _ _ _ _ _ _);
      [ not_in_set
      | by_computation
      | by_computation
      | reflexivity
      | split; [eexists; split; by_computation|by_computation]
      | by_computation
      | not_in_set
      | by_computation ]
  end.

Lemma cyclic_chain :
  exists self_q,
    CallChain cyclic_fs 3 (PathLib.of_string "a.h") header_run
              [PathLib.of_string "/proj/a.h"; PathLib.of_string "/proj/b.h"]
              1 (PathLib.of_string "/proj/a.h") self_q
    /\ PathLib.of_string "/proj/a.h" ∈ processing_stack self_q.
Proof.
  eexists. split.
  - eapply (chain_call cyclic_fs 3 _ _ [PathLib.of_string "/proj/a.h"]
                       2 (PathLib.of_string "/proj/b.h")).
    + eapply (chain_call cyclic_fs 3 _ _ [] 3 (PathLib.of_string "a.h")).
      * apply chain_top.
      * first_line_calls.
    + first_line_calls.
  - in_set.
Defined.

Lemma circular_dependency_raised_witness :
  exists self',
    process_file cyclic_fs 3 (PathLib.of_string "a.h") header_run
    = (Raise (Exception "Circular dependency detected: /proj/a.h"), self')
    /\ processing_stack self' = ∅.
Proof.
  destruct cyclic_chain as (self_q & Hchain & Hin).
  exact (proj1 (proj2 (circular_dependency_raised _ _ _ _ _ _ _ _ Hchain Hin))).
Defined.

(** ** The processing stack *)

(** Running out of fuel in the called file runs the calling one out of
    fuel. *)
Lemma Calls_out_of_fuel fs fuel p self fuel' q self_q self_q' :
  Calls fs fuel p self fuel' q self_q ->
  process_file fs fuel' q self_q = (OutOfFuel, self_q') ->
  process_file fs fuel p self = (OutOfFuel, self_q').
Proof.
  intros H Hq. inversion H; subst.
  rewrite process_file_step by assumption. cbv zeta.
  match goal with Hr : fs_read _ _ = _ |- _ => rewrite Hr end.
  match goal with Hsp : Str.split _ _ = _ |- _ => rewrite Hsp end.
  rewrite process_lines_app.
  match goal with Hl : process_lines _ _ _ _ _ _ _ = _ |- _ => rewrite Hl end.
  simpl. unfold bind.
  erewrite process_line_inline by eassumption.
  rewrite Hq. reflexivity.
Qed.

(** C4. At the entry of every call of the run the processing stack holds
    the paths of the frames above it and what it held before the run,
    nothing else; while the lines of a file are processed, between any two
    lines, it is the caller's stack with the path of the file; and every
    call that ends, by returning or by raising, leaves the stack as it
    found it.  This is what [process_file] itself does: a call on a path
    that is on the stack raises without pushing anything; any other call
    pushes the resolved path, runs the loop over the lines in the state
    with the path on the stack, and pops the path again whether the loop
    returns or raises (or the read fails).  And the calls of a chain are
    calls the run makes: what a called file raises comes out of the file
    that calls it, which pops its own path on the way. *)
Theorem processing_stack_discipline fs fuel0 top self0 :
  (forall frames fuel q self_q,
      CallChain fs fuel0 top self0 frames fuel q self_q ->
      processing_stack self_q = processing_stack self0 ∪ list_to_set frames
      /\ (processing_stack self0 = ∅ ->
          forall x, x ∈ processing_stack self_q <-> x ∈ frames))
  /\ (forall fuel p self lines pl r self1,
         process_lines fs (process_file fs fuel) p (fs_resolve fs p) lines pl
                       (entered (fs_resolve fs p) self) = (r, self1) ->
         r <> OutOfFuel ->
         processing_stack self1 = processing_stack self ∪ {[fs_resolve fs p]})
  /\ (forall fuel p self r self',
         process_file fs fuel p self = (r, self') ->
         r <> OutOfFuel ->
         processing_stack self' = processing_stack self)
  /\ (forall fuel p self,
         (fs_resolve fs p ∈ processing_stack self ->
          process_file fs (S fuel) p self
          = (Raise (Exception (circular_msg (fs_resolve fs p))), self))
         /\ (fs_resolve fs p ∉ processing_stack self ->
             processing_stack (entered (fs_resolve fs p) self)
             = processing_stack self ∪ {[fs_resolve fs p]}
             /\ process_file fs (S fuel) p self =
                  match fs_read fs (fs_resolve fs p) with
                  | None => (Raise (OSError (fs_resolve fs p)), self)
                  | Some content =>
                      match process_lines fs (process_file fs fuel) p
                                          (fs_resolve fs p)
                                          (Str.split newline content) []
                                          (entered (fs_resolve fs p) self) with
                      | (Return pl, self1) =>
                          (Return (mkProcessedFile
                                     (fs_resolve fs p) (Str.join nl pl)
                                     (get_file_type (fs_resolve fs p))),
                           set_processing_stack (processing_stack self) self1)
                      | (Raise e, self1) =>
                          (Raise e,
                           set_processing_stack (processing_stack self) self1)
                      | (OutOfFuel, self1) => (OutOfFuel, self1)
                      end
                  end))
  /\ (forall fuel p self fuel' q self_q,
         Calls fs fuel p self fuel' q self_q ->
         (forall e self_q',
             process_file fs fuel' q self_q = (Raise e, self_q') ->
             process_file fs fuel p self
             = (Raise e, set_processing_stack (processing_stack self) self_q'))
         /\ (forall self_q',
                process_file fs fuel' q self_q = (OutOfFuel, self_q') ->
                process_file fs fuel p self = (OutOfFuel, self_q'))).
Proof.
  split; [|split; [|split; [|split]]].
  - intros frames fuel q self_q Hchain.
    pose proof (CallChain_stack _ _ _ _ _ _ _ _ Hchain) as Hs.
    split; [exact Hs|].
    intros Hempty x. rewrite Hs, Hempty, elem_of_union, elem_of_list_to_set.
    rewrite elem_of_empty. tauto.
  - intros fuel p self lines pl r self1 Hl Hr.
    destruct (process_lines_well_behaved fs _ _ _ _
                (process_file_well_behaved fs fuel) _ _ _ _ Hl)
      as (_ & _ & Hs & _).
    now rewrite (Hs Hr).
  - intros fuel p self r self' H Hr.
    destruct (process_file_well_behaved fs fuel p _ _ _ H) as (_ & _ & Hs & _).
    now apply Hs.
  - intros fuel p self. split.
    + intros Hin. simpl. unfold bind, gets.
      rewrite decide_True by exact Hin. reflexivity.
    + intros Hin. split; [reflexivity|].
      now rewrite process_file_step by exact Hin.
  - intros fuel p self fuel' q self_q Hcall. split.
    + intros e self_q' Hq. eapply Calls_raise; eassumption.
    + intros self_q' Hq. eapply Calls_out_of_fuel; eassumption.
Qed.

Lemma processing_stack_discipline_witness :
  (exists self_q,
      CallChain cyclic_fs 3 (PathLib.of_string "a.h") header_run
                [PathLib.of_string "/proj/a.h"; PathLib.of_string "/proj/b.h"]
                1 (PathLib.of_string "/proj/a.h") self_q
      /\ forall x, x ∈ processing_stack self_q
                   <-> x ∈ [PathLib.of_string "/proj/a.h";
                            PathLib.of_string "/proj/b.h"])
  /\ processing_stack
       (snd (process_file cyclic_fs 3 (PathLib.of_string "a.h") header_run))
     = ∅
  /\ process_file cyclic_fs 3 (PathLib.of_string "a.h") header_run
     = match process_lines cyclic_fs (process_file cyclic_fs 2)
                           (PathLib.of_string "a.h")
                           (PathLib.of_string "/proj/a.h")
                           ["#include " +:+ quoted "b.h"] []
                           (entered (PathLib.of_string "/proj/a.h") header_run)
       with
       | (Return pl, self1) =>
           (Return (mkProcessedFile (PathLib.of_string "/proj/a.h")
                                    (Str.join nl pl) HEADER),
            set_processing_stack ∅ self1)
       | (Raise e, self1) => (Raise e, set_processing_stack ∅ self1)
       | (OutOfFuel, self1) => (OutOfFuel, self1)
       end.
Proof.
  split; [|split].
  - destruct cyclic_chain as (self_q & Hchain & _).
    exists self_q. split; [exact Hchain|].
    apply (proj1 (processing_stack_discipline cyclic_fs 3
                    (PathLib.of_string "a.h") header_run) _ _ _ _ Hchain).
    reflexivity.
  - destruct (process_file cyclic_fs 3 (PathLib.of_string "a.h") header_run)
      as [r self'] eqn:H.
    apply (proj1 (proj2 (proj2 (processing_stack_discipline cyclic_fs 3
                                  (PathLib.of_string "a.h") header_run)))
             _ _ _ _ _ H).
    intros ->. vm_compute in H. discriminate H.
  - destruct (proj1 (proj2 (proj2 (proj2
                (processing_stack_discipline cyclic_fs 3
                   (PathLib.of_string "a.h") header_run))))
                2 (PathLib.of_string "a.h") header_run) as [_ Hstep].
    destruct (Hstep ltac:(not_in_set)) as [_ Heq].
    exact Heq.
Defined.

(** ** Termination on acyclic inclusion graphs *)

Section Graph.

Variable fs : FileSystem.
Variable self0 : CppFusioner.

(** The file a line makes [process_file] recurse into, if any, by its
    resolved path: the line reaches the resolver, the resolver finds a
    file and the policy inlines it. *)
Definition line_child (abs_path : Path) (line : string) : option Path :=
  match Re.match_include line with
  | Some m =>
      if Str.contains Re.langle line then None
      else
        match find_include_file fs self0 (Re.group1 m)
                                (PathLib.parent abs_path) with
        | Some ip =>
            if wants_inline self0 (Re.group1 m) ip
            then Some (fs_resolve fs ip) else None
        | None => None
        end
  | None => None
  end.

(** The inclusion graph of the run, on resolved paths. *)
Definition children (abs_path : Path) : list Path :=
  match fs_read fs abs_path with
  | Some content => omap (line_child abs_path) (Str.split newline content)
  | None => []
  end.

Definition includes (a b : Path) : Prop := b ∈ children a.

(** [a] can be read, and so can every file below it, along chains of
    inclusions that all end. *)
Inductive Processable : Path -> Prop :=
| Processable_intro a content :
    fs_read fs a = Some content ->
    (forall c, includes a c -> Processable c) ->
    Processable a.

Lemma Acc_Processable a :
  Acc (fun c p => includes p c) a ->
  (forall q, rtc includes a q -> is_Some (fs_read fs q)) ->
  Processable a.
Proof.
  induction 1 as [a _ IH]. intros Hread.
  destruct (Hread a) as [content Hc]; [apply rtc_refl|].
  apply (Processable_intro a content Hc).
  intros c Hac. apply IH; [exact Hac|].
  intros q Hq. apply Hread. eapply rtc_l; eassumption.
Qed.

Lemma Processable_no_cycle a : Processable a -> ~ tc includes a a.
Proof.
  induction 1 as [a content Hread Hch IH]. intros Hcyc.
  assert (exists c, includes a c /\ rtc includes c a) as (c & Hac & Hca).
  { inversion Hcyc as [? ? H1|? c ? H1 H2]; subst.
    - exists a. split; [exact H1|apply rtc_refl].
    - exists c. split; [exact H1|now apply tc_rtc]. }
  apply (IH c Hac). eapply tc_rtc_l; [exact Hca|]. now apply tc_once.
Qed.

Lemma includes_intro a content line name ip self :
  same_config self0 self ->
  fs_read fs a = Some content ->
  line ∈ Str.split newline content ->
  resolved_directive line name ->
  find_include_file fs self name (PathLib.parent a) = Some ip ->
  wants_inline self name ip = true ->
  includes a (fs_resolve fs ip).
Proof.
  intros Hc Hread Hline [(m & Hm & <-) Hlt] Hfind Hpol.
  unfold includes, children. rewrite Hread.
  apply list_elem_of_omap. exists line. split; [exact Hline|].
  unfold line_child. rewrite Hm, Hlt.
  rewrite (find_include_file_config fs _ _ _ _ Hc), Hfind.
  now rewrite (wants_inline_config _ _ _ _ Hc), Hpol.
Qed.

(** A bound that serves every element of a list. *)
Lemma uniform_bound {A} (P : A -> nat -> Prop) (l : list A) :
  (forall x, x ∈ l -> exists n, forall m, n <= m -> P x m) ->
  exists n, forall x, x ∈ l -> forall m, n <= m -> P x m.
Proof.
  induction l as [|x l IH]; intros H.
  - exists 0. intros x Hx. inversion Hx.
  - destruct (H x) as [n1 H1]; [left|].
    destruct IH as [n2 H2]; [intros y Hy; apply H; now right|].
    exists (n1 + n2). intros y Hy m Hm.
    apply elem_of_cons in Hy as [->|Hy].
    + apply H1. lia.
    + apply H2; [exact Hy|lia].
Qed.

(** What a call needs to go through: the engine of the run, and a stack
    made of files that include the file of the call, directly or not. *)
Definition call_ready (abs_path : Path) (self : CppFusioner) : Prop :=
  same_config self0 self
  /\ forall s, s ∈ processing_stack self -> tc includes s abs_path.

Definition returns (fuel : nat) (abs_path : Path) : Prop :=
  forall file_path self,
    fs_resolve fs file_path = abs_path ->
    call_ready abs_path self ->
    exists pf self', process_file fs fuel file_path self = (Return pf, self').

Lemma process_lines_returns fuel file_path abs_path content self :
  fs_resolve fs file_path = abs_path ->
  call_ready abs_path self ->
  fs_read fs abs_path = Some content ->
  (forall c, includes abs_path c -> returns fuel c) ->
  forall lines pl self1,
    (forall line, line ∈ lines -> line ∈ Str.split newline content) ->
    same_config self0 self1 ->
    processing_stack self1 = processing_stack self ∪ {[abs_path]} ->
    exists pl' self1',
      process_lines fs (process_file fs fuel) file_path abs_path lines pl self1
      = (Return pl', self1').
Proof.
  intros Habs [Hcfg Hstack] Hread Hret.
  induction lines as [|line lines IH]; intros pl self1 Hsub Hc1 Hs1.
  - eexists _, _. reflexivity.
  - simpl. unfold bind.
    destruct (process_line fs (process_file fs fuel) file_path abs_path
                           line pl self1) as [r self2] eqn:Hl.
    assert (Hnext : exists pl2, r = Return pl2 /\ same_config self0 self2
                                /\ processing_stack self2 = processing_stack self1).
    { destruct (process_line_cases _ _ _ _ _ _ _ _ _ Hl)
        as [(out & msgs & -> & -> & _)|(name & ip & Hd & Hf & Hn & Hp)].
      - exists out. repeat split; apply Hc1.
      - rewrite (process_line_inline _ _ _ _ _ _ _ _ _ Hd Hf Hn Hp) in Hl.
        assert (Hinc : includes abs_path (fs_resolve fs ip)).
        { eapply includes_intro; try eassumption. apply Hsub. left. }
        destruct (Hret _ Hinc ip self1 eq_refl) as (pf & self3 & Hcall).
        { split; [exact Hc1|]. intros s Hs. rewrite Hs1 in Hs.
          apply elem_of_union in Hs as [Hs|Hs].
          - eapply tc_r; [apply Hstack, Hs|exact Hinc].
          - apply elem_of_singleton in Hs as ->. now apply tc_once. }
        rewrite Hcall in Hl. injection Hl as <- <-.
        destruct (process_file_well_behaved fs fuel ip _ _ _ Hcall)
          as (Hc3 & _ & Hs3 & _).
        eexists. split; [reflexivity|]. split.
        + eapply same_config_trans; [exact Hc1|].
          eapply same_config_trans; [exact Hc3|].
          apply after_inline_fields.
        + apply Hs3. discriminate. }
    destruct Hnext as (pl2 & -> & Hc2 & Hs2).
    apply IH; [|exact Hc2|congruence].
    intros l Hl'. apply Hsub. now right.
Qed.

Lemma Processable_returns a :
  Processable a -> exists n, forall fuel, n <= fuel -> returns fuel a.
Proof.
  induction 1 as [a content Hread Hch IH].
  destruct (uniform_bound (fun c m => returns m c) (children a)) as [n Hn].
  { intros c Hc. apply IH, Hc. }
  exists (S n). intros fuel Hfuel file_path self Habs Hready.
  destruct fuel as [|fuel]; [lia|].
  assert (Hnot : fs_resolve fs file_path ∉ processing_stack self).
  { rewrite Habs. intros Hin.
    apply (Processable_no_cycle a); [econstructor; eassumption|].
    now apply Hready. }
  rewrite process_file_step by exact Hnot. cbv zeta. rewrite Habs, Hread.
  destruct (process_lines_returns fuel file_path a content self Habs Hready
              Hread (fun c Hc => Hn c Hc fuel ltac:(lia))
              (Str.split newline content) [] (entered a self))
    as (pl & self1 & ->); [auto|apply Hready|reflexivity|].
  eexists _, _. reflexivity.
Qed.

End Graph.

Lemma Processable_Acc fs self a :
  Processable fs self a ->
  Acc (fun c p => includes fs self p c) a
  /\ forall q, rtc (includes fs self) a q -> is_Some (fs_read fs q).
Proof.
  induction 1 as [a content Hread Hch IH]. split.
  - constructor. intros c Hc. now apply IH.
  - intros q Hq. apply rtc_inv in Hq as [<-|(c & Hc & Hq)].
    + now exists content.
    + now apply (IH c Hc).
Qed.

(** C3. When the inclusion graph of the run has no cycle below the
    top-level file (the files it would inline, taken by resolved path, are
    well founded under inclusion) and the files below it can be read, a
    top-level call on an empty stack returns a [ProcessedFile] for every
    fuel above some bound, and the stack is empty again on return. *)
Theorem acyclic_terminates fs self top :
  processing_stack self = ∅ ->
  Acc (fun c p => includes fs self p c) (fs_resolve fs top) ->
  (forall q, rtc (includes fs self) (fs_resolve fs top) q ->
             is_Some (fs_read fs q)) ->
  exists n, forall fuel, n <= fuel ->
    exists pf self',
      process_file fs fuel top self = (Return pf, self')
      /\ processing_stack self' = ∅.
Proof.
  intros Hempty Hacc Hread.
  destruct (Processable_returns fs self _ (Acc_Processable fs self _ Hacc Hread))
    as [n Hn].
  exists n. intros fuel Hfuel.
  destruct (Hn fuel Hfuel top self eq_refl) as (pf & self' & Hrun).
  { split; [apply same_config_refl|].
    intros s Hs. rewrite Hempty in Hs. now apply elem_of_empty in Hs. }
  exists pf, self'. split; [exact Hrun|].
  destruct (process_file_well_behaved fs fuel top _ _ _ Hrun) as (_ & _ & Hs & _).
  rewrite Hs by discriminate. exact Hempty.
Qed.

(** [a.h] includes [b.h] and [c.h], and [b.h] includes [c.h]. *)
Definition diamond_fs : FileSystem :=
  MemFS.make "/proj"
    [("/proj/a.h", text ["#include " +:+ quoted "b.h";
                         "#include " +:+ quoted "c.h";
                         "int a;"]);
     ("/proj/b.h", text ["#include " +:+ quoted "c.h"; "int b;"]);
     ("/proj/c.h", text ["int c;"])].

Example diamond_output :
  fst (process_file diamond_fs 3 (PathLib.of_string "a.h") header_run)
  = Return (mkProcessedFile
              (PathLib.of_string "/proj/a.h")
              (text ["// Inlined from: /proj/b.h";
                     "// Inlined from: /proj/c.h";
                     "int c;";
                     "int b;";
                     "int a;"])
              HEADER).
Proof. by_computation. Qed.

Lemma diamond_Processable :
  Processable diamond_fs header_run (PathLib.of_string "/proj/a.h").
Proof.
  assert (Hc : Processable diamond_fs header_run (PathLib.of_string "/proj/c.h")).
  { eapply Processable_intro; [by_computation|].
    intros y Hy. unfold includes in Hy.
    replace (children diamond_fs header_run (PathLib.of_string "/proj/c.h"))
      with (@nil Path) in Hy by by_computation.
    inversion Hy. }
  assert (Hb : Processable diamond_fs header_run (PathLib.of_string "/proj/b.h")).
  { eapply Processable_intro; [by_computation|].
    intros y Hy. unfold includes in Hy.
    replace (children diamond_fs header_run (PathLib.of_string "/proj/b.h"))
      with [PathLib.of_string "/proj/c.h"] in Hy by by_computation.
    apply list_elem_of_singleton in Hy as ->. exact Hc. }
  eapply Processable_intro; [by_computation|].
  intros y Hy. unfold includes in Hy.
  replace (children diamond_fs header_run (PathLib.of_string "/proj/a.h"))
    with [PathLib.of_string "/proj/b.h"; PathLib.of_string "/proj/c.h"] in Hy
    by by_computation.
  apply elem_of_cons in Hy as [->|Hy]; [exact Hb|].
  apply list_elem_of_singleton in Hy as ->. exact Hc.
Defined.

Lemma acyclic_terminates_witness :
  exists n, forall fuel, n <= fuel ->
    exists pf self',
      process_file diamond_fs fuel (PathLib.of_string "a.h") header_run
      = (Return pf, self')
      /\ processing_stack self' = ∅.
Proof.
  destruct (Processable_Acc _ _ _ diamond_Processable) as [Hacc Hread].
  exact (acyclic_terminates diamond_fs header_run (PathLib.of_string "a.h")
                            eq_refl Hacc Hread).
Defined.

(** ** Inlining once *)

Section Once.

Variable fs : FileSystem.

(** The states a run goes through after a given one: what the steps of
    the engine make of it (a line of a file is processed with the resolved
    path of the file, a call of [process_file] from its entry to its end,
    the stack pushed or popped). *)
Inductive Later : CppFusioner -> CppFusioner -> Prop :=
| later_here self : Later self self
| later_line fuel file_path line pl self r self' :
    process_line fs (process_file fs fuel) file_path (fs_resolve fs file_path)
                 line pl self
    = (r, self') ->
    Later self self'
| later_file fuel file_path self r self' :
    process_file fs fuel file_path self = (r, self') -> Later self self'
| later_stack stack self : Later self (set_processing_stack stack self)
| later_then a b c : Later a b -> Later b c -> Later a c.




End Once.

(** [a.h] includes [b.h] twice. *)
Definition twice_fs : FileSystem :=
  MemFS.make "/proj" [("/proj/a.h", text ["#include " +:+ quoted "b.h";
                                          "#include " +:+ quoted "b.h"]);
                      ("/proj/b.h", text ["int b;"])].

Example twice_output :
  fst (process_file twice_fs 2 (PathLib.of_string "a.h") header_run)
  = Return (mkProcessedFile (PathLib.of_string "/proj/a.h")
                            (text ["// Inlined from: /proj/b.h"; "int b;"])
                            HEADER).
Proof. by_computation. Qed.


(** ** The paths in [already_inlined] *)

Definition all_absolute (s : gset Path) : Prop :=
  forall p, p ∈ s -> PathLib.is_absolute p = true.

Definition absolute_search_path (self : CppFusioner) : Prop :=
  forall d, d ∈ include_paths self -> PathLib.is_absolute d = true.

Lemma div_absolute p s :
  PathLib.is_absolute p = true -> PathLib.is_absolute (p // s) = true.
Proof.
  intros Hp. unfold PathLib.div, PathLib.joinpath.
  destruct (PathLib.is_absolute (PathLib.of_string s)) eqn:E; [exact E|exact Hp].
Qed.

Lemma parent_absolute p :
  PathLib.is_absolute p = true -> PathLib.is_absolute (PathLib.parent p) = true.
Proof. unfold PathLib.parent. now destruct (parts p). Qed.

Section Absolute.

Variable fs : FileSystem.
Hypothesis resolve_absolute :
  forall p, PathLib.is_absolute (fs_resolve fs p) = true.

Lemma search_include_paths_absolute name paths ip :
  (forall d, d ∈ paths -> PathLib.is_absolute d = true) ->
  search_include_paths fs name paths = Some ip ->
  PathLib.is_absolute ip = true.
Proof.
  induction paths as [|d rest IH]; intros Habs; simpl; [discriminate|].
  destruct (fs_exists fs (d // name)).
  - intros [= <-]. apply div_absolute, Habs. left.
  - apply IH. intros d' Hd'. apply Habs. now right.
Qed.

Lemma find_include_file_absolute self name dir ip :
  absolute_search_path self ->
  PathLib.is_absolute dir = true ->
  find_include_file fs self name dir = Some ip ->
  PathLib.is_absolute ip = true.
Proof.
  intros Hsp Hdir. unfold find_include_file.
  destruct (fs_exists fs (dir // name)).
  - intros [= <-]. now apply div_absolute.
  - now apply search_include_paths_absolute.
Qed.

Lemma absolute_search_path_config a b :
  same_config a b -> absolute_search_path a -> absolute_search_path b.
Proof. intros (H & _) Ha d Hd. apply Ha. now rewrite H. Qed.

Definition keeps_absolute {A} (m : M A) : Prop :=
  forall self r self',
    m self = (r, self') ->
    absolute_search_path self ->
    all_absolute (already_inlined self) ->
    all_absolute (already_inlined self').

Lemma process_line_keeps_absolute rec file_path abs_path line pl :
  PathLib.is_absolute abs_path = true ->
  (forall p, well_behaved (rec p)) ->
  (forall p, keeps_absolute (rec p)) ->
  keeps_absolute (process_line fs rec file_path abs_path line pl).
Proof.
  intros Habs Hwb Hrec self r self' H Hsp Hall.
  destruct (process_line_cases _ _ _ _ _ _ _ _ _ H)
    as [(out & msgs & -> & -> & _)|(name & ip & Hd & Hf & Hn & Hp)].
  - exact Hall.
  - rewrite (process_line_inline _ _ _ _ _ _ _ _ _ Hd Hf Hn Hp) in H.
    destruct (rec ip self) as [r1 self1] eqn:Hr.
    pose proof (Hrec _ _ _ _ Hr Hsp Hall) as Hall1.
    destruct r1 as [f|e|]; injection H as <- <-; try exact Hall1.
    intros p Hin. apply elem_of_union in Hin as [Hin|Hin]; [now apply Hall1|].
    apply elem_of_singleton in Hin as ->.
    eapply find_include_file_absolute; [exact Hsp| |exact Hf].
    now apply parent_absolute.
Qed.

Lemma process_lines_keeps_absolute rec file_path abs_path lines :
  PathLib.is_absolute abs_path = true ->
  (forall p, well_behaved (rec p)) ->
  (forall p, keeps_absolute (rec p)) ->
  forall pl, keeps_absolute (process_lines fs rec file_path abs_path lines pl).
Proof.
  intros Habs Hwb Hrec.
  induction lines as [|line rest IH]; intros pl self r self' H Hsp Hall.
  - injection H as <- <-. exact Hall.
  - simpl in H. unfold bind in H.
    destruct (process_line fs rec file_path abs_path line pl self)
      as [r1 self1] eqn:Hl.
    pose proof (process_line_keeps_absolute _ _ _ _ _ Habs Hwb Hrec
                  _ _ _ Hl Hsp Hall) as Hall1.
    destruct (process_line_well_behaved fs _ _ _ _ _ Hwb _ _ _ Hl)
      as (Hc & _).
    destruct r1 as [pl1|e|]; try (injection H as <- <-; exact Hall1).
    eapply IH; [exact H| |exact Hall1].
    eapply absolute_search_path_config; eassumption.
Qed.

Lemma process_file_keeps_absolute fuel :
  forall file_path, keeps_absolute (process_file fs fuel file_path).
Proof.
  induction fuel as [|fuel IH]; intros file_path self r self' H Hsp Hall.
  - injection H as <- <-. exact Hall.
  - destruct (decide (fs_resolve fs file_path ∈ processing_stack self))
      as [Hin|Hin].
    + simpl in H. unfold bind, gets in H.
      rewrite decide_True in H by exact Hin.
      injection H as <- <-. exact Hall.
    + rewrite process_file_step in H by exact Hin. cbv zeta in H.
      destruct (fs_read fs (fs_resolve fs file_path)) as [content|].
      2:{ injection H as <- <-. exact Hall. }
      destruct (process_lines fs (process_file fs fuel) file_path
                  (fs_resolve fs file_path) (Str.split newline content) []
                  (entered (fs_resolve fs file_path) self))
        as [r1 self1] eqn:Hl.
      pose proof (process_lines_keeps_absolute _ _ _ _
                    (resolve_absolute file_path)
                    (process_file_well_behaved fs fuel) IH
                    _ _ _ _ Hl Hsp Hall) as Hall1.
      destruct r1; injection H as <- <-; exact Hall1.
Qed.

End Absolute.

Lemma Later_same_config fs a b : Later fs a b -> same_config a b.
Proof.
  induction 1 as [self|fuel fp line pl self r self' H
                  |fuel fp self r self' H|stack self|a b c _ IH1 _ IH2].
  - apply same_config_refl.
  - now destruct (process_line_well_behaved fs _ fp _ line pl
                    (process_file_well_behaved fs fuel) _ _ _ H)
      as (Hc & _).
  - now destruct (process_file_well_behaved fs fuel fp _ _ _ H) as (Hc & _).
  - repeat split.
  - eapply same_config_trans; eassumption.
Qed.

(** C10, as the code has it.  A path enters [already_inlined] as the
    resolver returned it.  When every directory of the search path is
    absolute (and [resolve] gives absolute paths, and the set held only
    absolute paths before), every member of [already_inlined] is absolute
    in every later state of the run. *)
Theorem already_inlined_absolute fs self self' :
  (forall p, PathLib.is_absolute (fs_resolve fs p) = true) ->
  absolute_search_path self ->
  all_absolute (already_inlined self) ->
  Later fs self self' ->
  all_absolute (already_inlined self').
Proof.
  intros Hres Hsp Hall Hlater.
  induction Hlater as [self|fuel fp line pl self r self' H
                       |fuel fp self r self' H|stack self|a b c H1 IH1 H2 IH2].
  - exact Hall.
  - exact (process_line_keeps_absolute fs _ fp _ line pl (Hres fp)
             (process_file_well_behaved fs fuel)
             (process_file_keeps_absolute fs Hres fuel) _ _ _ H Hsp Hall).
  - exact (process_file_keeps_absolute fs Hres fuel fp _ _ _ H Hsp Hall).
  - exact Hall.
  - apply IH2; [|now apply IH1].
    eapply absolute_search_path_config; [|exact Hsp].
    now apply (Later_same_config fs).
Qed.

(** [src/a.h] includes [b.h], which is found under a directory of the
    search path. *)
Definition search_fs : FileSystem :=
  MemFS.make "/proj" [("/proj/src/a.h", text ["#include " +:+ quoted "b.h"]);
                      ("/proj/inc/b.h", text ["int b;"])].

Lemma MemFS_resolve_absolute cwd files p :
  PathLib.is_absolute (PathLib.of_string cwd) = true ->
  PathLib.is_absolute (fs_resolve (MemFS.make cwd files) p) = true.
Proof.
  intros Hcwd. simpl. unfold MemFS.resolve, PathLib.is_absolute. simpl.
  unfold PathLib.joinpath.
  destruct (PathLib.is_absolute p) eqn:E; [exact E|exact Hcwd].
Qed.

Lemma already_inlined_absolute_witness :
  all_absolute
    (already_inlined
       (snd (process_file search_fs 2 (PathLib.of_string "src/a.h")
                          (CppFusioner_init ["/proj/inc"] true false)))).
Proof.
  destruct (process_file search_fs 2 (PathLib.of_string "src/a.h")
                         (CppFusioner_init ["/proj/inc"] true false))
    as [r self'] eqn:H.
  apply (already_inlined_absolute search_fs
           (CppFusioner_init ["/proj/inc"] true false) self').
  - intros p. now apply MemFS_resolve_absolute.
  - intros d Hd. apply list_elem_of_singleton in Hd as ->. reflexivity.
  - intros p Hp. now apply elem_of_empty in Hp.
  - exact (later_file search_fs 2 _ _ _ _ H).
Defined.

(** C10 as the specification words it fails: with the relative directory
    [inc] on the search path, the run puts the relative path [inc/b.h] in
    [already_inlined]. *)
Lemma already_inlined_absolute_counterexample :
  PathLib.of_string "inc/b.h"
    ∈ already_inlined
        (snd (process_file search_fs 2 (PathLib.of_string "src/a.h")
                           (CppFusioner_init ["inc"] true false)))
  /\ PathLib.is_absolute (PathLib.of_string "inc/b.h") = false.
Proof. split; [in_set|reflexivity]. Qed.

(** ** Errors *)


(** [a.h] includes [missing.h], which is nowhere. *)
Definition missing_fs : FileSystem :=
  MemFS.make "/proj" [("/proj/a.h", text ["#include " +:+ quoted "missing.h";
                                          "int a;"])].

Example missing_output :
  fst (process_file missing_fs 2 (PathLib.of_string "a.h") header_run)
  = Return (mkProcessedFile (PathLib.of_string "/proj/a.h")
                            (text ["#include " +:+ quoted "missing.h"; "int a;"])
                            HEADER).
Proof. by_computation. Qed.

Example unreadable_top :
  fst (process_file missing_fs 2 (PathLib.of_string "nowhere.h") header_run)
  = Raise (OSError (PathLib.of_string "/proj/nowhere.h")).
Proof. by_computation. Qed.


(** ** System includes *)

(** What the code does with an include line that holds an opening angle
    bracket anywhere: the line is kept and the resolver is not asked. *)
Lemma langle_in_line_preserved fs rec file_path abs_path line m pl self :
  Re.match_include line = Some m ->
  Str.contains Re.langle line = true ->
  process_line fs rec file_path abs_path line pl self
  = (Return (pl ++ [line]),
     set_stderr (stderr self
                 ++ ["preserve system include " +:+ Re.group1 m +:+ " in "
                     +:+ PathLib.to_string file_path]) self).
Proof.
  intros Hm Hlt. unfold process_line. now rewrite Hm, Hlt.
Qed.

Lemma contains_app c a b :
  Str.contains c (a +:+ b) = Str.contains c a || Str.contains c b.
Proof.
  induction a as [|d a IH]; simpl; [reflexivity|].
  destruct (Ascii.eqb c d); [reflexivity|exact IH].
Qed.

(** The half of C5 that holds: a reference opened by an angle bracket is
    always preserved. *)
Lemma angle_delimiter_preserved fs rec file_path abs_path line m pl self :
  Re.match_include line = Some m ->
  Re.m_open m = Re.langle ->
  fst (process_line fs rec file_path abs_path line pl self)
  = Return (pl ++ [line]).
Proof.
  intros Hm Ho.
  rewrite (langle_in_line_preserved _ _ _ _ _ m); [reflexivity|exact Hm|].
  apply Shape.match_include_accepts in Hm as (ws & rest & -> & _).
  rewrite Ho, !contains_app.
  change (Str.contains Re.langle (String Re.langle ?r)) with true.
  now rewrite !orb_true_r.
Qed.

(** [a.h] includes [b.h] between double quotes, with a comment that
    mentions the angle-bracket form. *)
Definition commented_include : string :=
  "#include " +:+ quoted "b.h" +:+ " // not <b.h>".

Definition commented_fs : FileSystem :=
  MemFS.make "/proj" [("/proj/a.h", text [commented_include; "int a;"]);
                      ("/proj/b.h", text ["int b;"])].

(** C5, at the input where the code departs from it.  The reference of the
    line is between double quotes, the resolver would find [/proj/b.h] and
    the policy of the run would inline it; but the line holds an opening
    angle bracket in its comment, so the run keeps the line as a system
    include: nothing is inlined. *)
Theorem quoted_include_preserved_as_system :
  (exists m, Re.match_include commented_include = Some m
             /\ Re.m_open m = Re.dquote /\ Re.group1 m = "b.h")
  /\ find_include_file commented_fs header_run "b.h" (PathLib.of_string "/proj")
     = Some (PathLib.of_string "/proj/b.h")
  /\ wants_inline header_run "b.h" (PathLib.of_string "/proj/b.h") = true
  /\ exists self',
      process_file commented_fs 2 (PathLib.of_string "a.h") header_run
      = (Return (mkProcessedFile (PathLib.of_string "/proj/a.h")
                                 (text [commented_include; "int a;"]) HEADER),
         self')
      /\ stderr self' = ["preserve system include b.h in a.h"]
      /\ already_inlined self' = ∅.
Proof.
  split; [eexists; repeat split; by_computation|].
  split; [by_computation|]. split; [by_computation|].
  eexists. split; [by_computation|]. split; reflexivity.
Qed.


(** * Further properties of the code *)

(** ** [get_file_type] looks at the letters of the extension only *)

Lemma lower_char_dot c :
  Ascii.eqb "."%char (Str.lower_char c) = Ascii.eqb "."%char c.
Proof. destruct c as [[] [] [] [] [] [] [] []]; reflexivity. Qed.

Lemma upper_char_dot c :
  Ascii.eqb "."%char (Str.upper_char c) = Ascii.eqb "."%char c.
Proof. destruct c as [[] [] [] [] [] [] [] []]; reflexivity. Qed.

Lemma lower_upper_char c : Str.lower_char (Str.upper_char c) = Str.lower_char c.
Proof. destruct c as [[] [] [] [] [] [] [] []]; reflexivity. Qed.

Lemma lower_lower_char c : Str.lower_char (Str.lower_char c) = Str.lower_char c.
Proof. destruct c as [[] [] [] [] [] [] [] []]; reflexivity. Qed.

Section MapChars.

Variable f : ascii -> ascii.
Hypothesis f_dot : forall c, Ascii.eqb "."%char (f c) = Ascii.eqb "."%char c.

Lemma rfind_map_chars s :
  Str.rfind "."%char (Str.map_chars f s) = Str.rfind "."%char s.
Proof.
  induction s as [|c s IH]; [reflexivity|].
  cbn [Str.rfind Str.map_chars]. now rewrite IH, f_dot.
Qed.

Lemma length_map_chars s : String.length (Str.map_chars f s) = String.length s.
Proof. induction s as [|c s IH]; simpl; congruence. Qed.

Lemma drop_map_chars i s :
  Str.drop i (Str.map_chars f s) = Str.map_chars f (Str.drop i s).
Proof.
  revert s; induction i as [|i IH]; intros [|c s]; simpl; auto.
Qed.

Lemma suffix_index_map_chars s :
  PathLib.suffix_index (Str.map_chars f s) = PathLib.suffix_index s.
Proof.
  unfold PathLib.suffix_index. now rewrite rfind_map_chars, length_map_chars.
Qed.

End MapChars.

Lemma map_chars_compose f g s :
  Str.map_chars f (Str.map_chars g s) = Str.map_chars (fun c => f (g c)) s.
Proof. induction s as [|c s IH]; simpl; congruence. Qed.

Lemma map_chars_ext f g s :
  (forall c, f c = g c) -> Str.map_chars f s = Str.map_chars g s.
Proof. intros H. induction s as [|c s IH]; simpl; congruence. Qed.

Lemma name_snoc r ps n : PathLib.name (mkPath r (ps ++ [n])) = n.
Proof. unfold PathLib.name. simpl. apply last_last. Qed.

(** The lower-cased extension of a path, as [get_file_type] computes it. *)
Definition lower_ext (n : string) : string :=
  match PathLib.suffix_index n with
  | Some i => Str.lower (Str.drop i n)
  | None => ""
  end.

Lemma get_file_type_lower_ext r ps n :
  get_file_type (mkPath r (ps ++ [n])) =
    if Str.in_list (lower_ext n) [".h"; ".hpp"; ".hxx"; ".hh"] then HEADER
    else if Str.in_list (lower_ext n) [".c"; ".cpp"; ".cxx"; ".cc"] then SOURCE
    else UNKNOWN.
Proof.
  unfold get_file_type, PathLib.suffix, lower_ext. rewrite name_snoc.
  now destruct (PathLib.suffix_index n).
Qed.

Lemma lower_ext_upper n : lower_ext (Str.upper n) = lower_ext n.
Proof.
  unfold lower_ext, Str.upper, Str.lower.
  rewrite suffix_index_map_chars by exact upper_char_dot.
  destruct (PathLib.suffix_index n); [|reflexivity].
  rewrite drop_map_chars, map_chars_compose.
  apply map_chars_ext, lower_upper_char.
Qed.

Lemma lower_ext_lower n : lower_ext (Str.lower n) = lower_ext n.
Proof.
  unfold lower_ext, Str.upper, Str.lower.
  rewrite suffix_index_map_chars by exact lower_char_dot.
  destruct (PathLib.suffix_index n); [|reflexivity].
  rewrite drop_map_chars, map_chars_compose.
  apply map_chars_ext, lower_lower_char.
Qed.

(** X1. The type of a file depends on its last component only, and not on
    the case of its letters: a path, the same file name in any other
    directory, and the name in upper or in lower case all get the same
    type. *)
Theorem get_file_type_case_insensitive r ps r' ps' n :
  get_file_type (mkPath r (ps ++ [n])) = get_file_type (mkPath r' (ps' ++ [n]))
  /\ get_file_type (mkPath r (ps ++ [Str.upper n]))
     = get_file_type (mkPath r (ps ++ [n]))
  /\ get_file_type (mkPath r (ps ++ [Str.lower n]))
     = get_file_type (mkPath r (ps ++ [n])).
Proof.
  rewrite !get_file_type_lower_ext, lower_ext_upper, lower_ext_lower.
  repeat split.
Qed.

(** ** Writing an include line and matching it *)

(** X2. An include line written in the usual way is matched with its
    reference as the group: for a non-empty reference with neither [>]
    nor a double quote, the line [#include], one space, the reference
    between double quotes (or between angle brackets) matches, with
    [group1] the reference and the delimiters as written; and the quoted
    line reaches the resolver exactly when the reference holds no [<]. *)
Theorem include_line_round_trip name :
  name <> EmptyString ->
  Shape.all (fun c => negb (Re.is_close c)) name = true ->
  Re.match_include ("#include " +:+ quoted name)
  = Some (Re.mkMatch Re.dquote name Re.dquote)
  /\ Re.match_include ("#include <" +:+ name +:+ ">")
     = Some (Re.mkMatch Re.langle name Re.rangle)
  /\ (Str.contains Re.langle name = false ->
      resolved_directive ("#include " +:+ quoted name) name).
Proof.
  intros Hne Hall.
  assert (H1 : Re.match_include ("#include " +:+ quoted name)
               = Some (Re.mkMatch Re.dquote name Re.dquote)).
  { apply Shape.match_include_accepts. exists " ", EmptyString.
    repeat split; auto. }
  split; [exact H1|split].
  - apply Shape.match_include_accepts. exists " ", EmptyString.
    repeat split; auto.
  - intros Hlt. split; [eexists; split; [exact H1|reflexivity]|].
    unfold quoted.
    change ("#include " +:+ String Re.dquote (name +:+ String Re.dquote ""))
      with ("#include " +:+ (String Re.dquote "" +:+ (name +:+ String Re.dquote ""))).
    rewrite !contains_app, Hlt. reflexivity.
Qed.

Lemma include_line_round_trip_witness :
  Re.match_include ("#include " +:+ quoted "gtest/gtest.h")
  = Some (Re.mkMatch Re.dquote "gtest/gtest.h" Re.dquote)
  /\ resolved_directive ("#include " +:+ quoted "gtest/gtest.h") "gtest/gtest.h".
Proof.
  destruct (include_line_round_trip "gtest/gtest.h") as (H1 & _ & H3);
    [discriminate|reflexivity|].
  split; [exact H1|apply H3; reflexivity].
Defined.

(** ** Files that are reproduced as they are *)

Lemma split_not_nil sep s : Str.split sep s <> [].
Proof.
  destruct s as [|c s]; simpl; [discriminate|].
  destruct (Ascii.eqb c sep); [discriminate|].
  destruct (Str.split sep s); discriminate.
Qed.

Lemma join_cons_cons sep x y l :
  Str.join sep (x :: y :: l) = x +:+ sep +:+ Str.join sep (y :: l).
Proof. reflexivity. Qed.

(** Joining the lines of a text gives the text back. *)
Lemma join_split s : Str.join nl (Str.split newline s) = s.
Proof.
  induction s as [|c s IH]; [reflexivity|].
  cbn [Str.split].
  destruct (Str.split newline s) as [|h t] eqn:E.
  { now destruct (split_not_nil newline s). }
  destruct (Ascii.eqb_spec c newline) as [->|_].
  - rewrite join_cons_cons, IH. reflexivity.
  - destruct t as [|y t].
    + simpl in *. now rewrite IH.
    + rewrite join_cons_cons. rewrite join_cons_cons in IH.
      rewrite <- IH. reflexivity.
Qed.

Section Verbatim.

Variable fs : FileSystem.

(** No line of the list reaches the resolver and is found by it. *)
Definition nothing_found (self : CppFusioner) (dir : Path) (lines : list string)
  : Prop :=
  forall line name,
    line ∈ lines -> resolved_directive line name ->
    find_include_file fs self name dir = None.

Lemma process_line_kept rec file_path abs_path line pl self :
  (forall name, resolved_directive line name ->
                find_include_file fs self name (PathLib.parent abs_path) = None) ->
  exists msgs,
    process_line fs rec file_path abs_path line pl self
    = (Return (pl ++ [line]), set_stderr (stderr self ++ msgs) self).
Proof.
  intros Hnone. unfold process_line.
  destruct (Re.match_include line) as [m|] eqn:Hm.
  2:{ exists []. unfold ret. rewrite app_nil_r. now destruct self. }
  destruct (Str.contains Re.langle line) eqn:Hlt.
  { eexists [_]. reflexivity. }
  unfold bind at 1. unfold gets at 1. unfold id.
  rewrite (Hnone (Re.group1 m)) by (split; eauto).
  eexists [_]. reflexivity.
Qed.

Lemma process_lines_kept rec file_path abs_path lines :
  forall pl self,
    nothing_found self (PathLib.parent abs_path) lines ->
    exists msgs,
      process_lines fs rec file_path abs_path lines pl self
      = (Return (pl ++ lines), set_stderr (stderr self ++ msgs) self).
Proof.
  induction lines as [|line lines IH]; intros pl self Hnone.
  - exists []. simpl. unfold ret. rewrite !app_nil_r. now destruct self.
  - simpl. unfold bind.
    destruct (process_line_kept rec file_path abs_path line pl self)
      as [msgs1 ->].
    { intros name Hd. apply (Hnone line name); [left|exact Hd]. }
    destruct (IH (pl ++ [line]) (set_stderr (stderr self ++ msgs1) self))
      as [msgs2 ->].
    { intros l name Hl Hd.
      rewrite <- (Hnone l name); [reflexivity|now right|exact Hd]. }
    exists (msgs1 ++ msgs2). rewrite <- (app_assoc pl).
    unfold set_stderr. simpl. now rewrite <- app_assoc.
Qed.

(** X3. A file none of whose lines is an include that the resolver finds
    (lines that do not match, system includes, references that are
    nowhere) is returned with exactly the text that was read: splitting
    into lines and joining them again loses nothing.  Only [stderr]
    changes, and no fuel is needed for included files. *)
Theorem unresolved_file_verbatim fuel file_path self content :
  fs_resolve fs file_path ∉ processing_stack self ->
  fs_read fs (fs_resolve fs file_path) = Some content ->
  nothing_found self (PathLib.parent (fs_resolve fs file_path))
                (Str.split newline content) ->
  exists msgs,
    process_file fs (S fuel) file_path self
    = (Return (mkProcessedFile (fs_resolve fs file_path) content
                               (get_file_type (fs_resolve fs file_path))),
       set_stderr (stderr self ++ msgs) self).
Proof.
  intros Hin Hread Hnone.
  rewrite process_file_step by exact Hin. cbv zeta. rewrite Hread.
  destruct (process_lines_kept (process_file fs fuel) file_path
              (fs_resolve fs file_path) (Str.split newline content) []
              (entered (fs_resolve fs file_path) self)) as [msgs ->].
  { exact Hnone. }
  exists msgs. rewrite app_nil_l, join_split. reflexivity.
Qed.

End Verbatim.

(** A source file with a system include, an include that is nowhere and
    plain lines. *)
Definition plain_fs : FileSystem :=
  MemFS.make "/proj"
    [("/proj/main.cc", text ["#include <vector>";
                             "#include " +:+ quoted "config.h";
                             "";
                             "int main() { return 0; }";
                             ""])].

Lemma unresolved_file_verbatim_witness :
  exists msgs,
    process_file plain_fs 1 (PathLib.of_string "main.cc")
                 (CppFusioner_init ["."] false true)
    = (Return (mkProcessedFile
                 (PathLib.of_string "/proj/main.cc")
                 (text ["#include <vector>";
                        "#include " +:+ quoted "config.h";
                        "";
                        "int main() { return 0; }";
                        ""])
                 SOURCE),
       set_stderr msgs (CppFusioner_init ["."] false true)).
Proof.
  destruct (unresolved_file_verbatim plain_fs 0 (PathLib.of_string "main.cc")
              (CppFusioner_init ["."] false true)
              (text ["#include <vector>"; "#include " +:+ quoted "config.h";
                     ""; "int main() { return 0; }"; ""]))
    as [msgs H].
  - not_in_set.
  - reflexivity.
  - intros line name Hline [(m & Hm & Hg) Hlt].
    change (Str.split newline _)
      with ["#include <vector>"; "#include " +:+ quoted "config.h";
            ""; "int main() { return 0; }"; ""] in Hline.
    repeat (apply elem_of_cons in Hline as [->|Hline]);
      try (now inversion Hline); try discriminate Hlt; try discriminate Hm.
    injection Hm as <-. subst name. reflexivity.
  - exists msgs. exact H.
Defined.

(** ** Termination on every finite file system *)

Section Terminates.

Variable fs : FileSystem.

(** Every resolved path that can be read is in a finite list. *)
Variable universe : list Path.
Hypothesis universe_complete :
  forall p content,
    fs_read fs (fs_resolve fs p) = Some content -> fs_resolve fs p ∈ universe.

(** How many files of the list are not on a stack. *)
Definition off_stack (stack : gset Path) : nat :=
  length (List.filter (fun p => bool_decide (p ∉ stack)) universe).

Lemma filter_length_lt {A} (f g : A -> bool) (l : list A) a :
  (forall x, g x = true -> f x = true) ->
  a ∈ l -> f a = true -> g a = false ->
  length (List.filter g l) < length (List.filter f l).
Proof.
  intros Hgf. induction l as [|x l IH]; intros Hin Hfa Hga.
  - inversion Hin.
  - assert (Hle : forall l', length (List.filter g l') <= length (List.filter f l')).
    { induction l' as [|y l' IH']; simpl; [lia|].
      destruct (g y) eqn:Eg.
      - rewrite (Hgf y Eg). simpl. lia.
      - destruct (f y); simpl; lia. }
    apply elem_of_cons in Hin as [<-|Hin].
    + simpl. rewrite Hfa, Hga. simpl. specialize (Hle l). lia.
    + simpl. specialize (IH Hin Hfa Hga).
      destruct (g x) eqn:Eg.
      * rewrite (Hgf x Eg). simpl. lia.
      * destruct (f x); simpl; lia.
Qed.

Lemma off_stack_entered stack p :
  p ∈ universe -> p ∉ stack ->
  off_stack (stack ∪ {[p]}) < off_stack stack.
Proof.
  intros Hu Hp. unfold off_stack.
  apply (filter_length_lt _ _ universe p).
  - intros x Hx. apply bool_decide_eq_true in Hx.
    apply bool_decide_eq_true. intros Hin. apply Hx.
    now apply elem_of_union_l.
  - exact Hu.
  - now apply bool_decide_eq_true.
  - apply bool_decide_eq_false. intros Hn. apply Hn.
    apply elem_of_union_r, elem_of_singleton_2. reflexivity.
Qed.

Definition ends {A} (x : outcome A * CppFusioner) : Prop := fst x <> OutOfFuel.

Lemma process_lines_ends rec file_path abs_path stack :
  (forall p, well_behaved (rec p)) ->
  (forall p self, processing_stack self = stack -> ends (rec p self)) ->
  forall lines pl self,
    processing_stack self = stack ->
    ends (process_lines fs rec file_path abs_path lines pl self).
Proof.
  intros Hwb Hrec. induction lines as [|line lines IH]; intros pl self Hs.
  - discriminate.
  - simpl. unfold bind.
    destruct (process_line fs rec file_path abs_path line pl self)
      as [r self1] eqn:Hl.
    destruct (process_line_well_behaved fs _ _ _ _ _ Hwb _ _ _ Hl)
      as (_ & _ & Hs1 & _).
    assert (Hr : r <> OutOfFuel).
    { destruct (process_line_cases _ _ _ _ _ _ _ _ _ Hl)
        as [(out & msgs & -> & _)|(name & ip & Hd & Hf & Hn & Hp)];
        [discriminate|].
      rewrite (process_line_inline _ _ _ _ _ _ _ _ _ Hd Hf Hn Hp) in Hl.
      pose proof (Hrec ip self Hs) as He. unfold ends in He.
      destruct (rec ip self) as [[f|e|] self2]; simpl in He;
        injection Hl as <- <-; [discriminate|discriminate|contradiction]. }
    destruct r as [pl1|e|]; [|discriminate|contradiction].
    apply IH. rewrite Hs1 by discriminate. exact Hs.
Qed.

Lemma process_file_ends fuel :
  forall file_path self,
    off_stack (processing_stack self) < fuel ->
    ends (process_file fs fuel file_path self).
Proof.
  induction fuel as [|fuel IH]; intros file_path self Hfuel; [lia|].
  destruct (decide (fs_resolve fs file_path ∈ processing_stack self))
    as [Hin|Hin].
  { simpl. unfold bind, gets. rewrite decide_True by exact Hin. discriminate. }
  rewrite process_file_step by exact Hin. cbv zeta.
  destruct (fs_read fs (fs_resolve fs file_path)) as [content|] eqn:Hread;
    [|discriminate].
  pose proof (off_stack_entered _ _ (universe_complete _ _ Hread) Hin) as Hlt.
  pose proof (process_lines_ends (process_file fs fuel) file_path
                (fs_resolve fs file_path)
                (processing_stack self ∪ {[fs_resolve fs file_path]})
                (process_file_well_behaved fs fuel)) as Hlines.
  specialize (Hlines (fun p self1 Hs1 => IH p self1 ltac:(rewrite Hs1; lia))
                     (Str.split newline content) []
                     (entered (fs_resolve fs file_path) self) eq_refl).
  unfold ends in *.
  destruct (process_lines fs (process_file fs fuel) file_path
              (fs_resolve fs file_path) (Str.split newline content) []
              (entered (fs_resolve fs file_path) self)) as [[pl|e|] self1];
    simpl in *; [discriminate|discriminate|contradiction].
Qed.

End Terminates.

(** X4. On a file system with finitely many readable files (by resolved
    path), [process_file] always comes to an end, whatever includes what:
    with more fuel than there are readable files, every call returns or
    raises, from any state; it never recurses for ever. *)
Theorem process_file_terminates fs (universe : list Path) :
  (forall p content,
      fs_read fs (fs_resolve fs p) = Some content ->
      fs_resolve fs p ∈ universe) ->
  forall fuel file_path self,
    length universe < fuel ->
    (exists pf self', process_file fs fuel file_path self = (Return pf, self'))
    \/ (exists e self', process_file fs fuel file_path self = (Raise e, self')).
Proof.
  intros Hu fuel file_path self Hfuel.
  pose proof (process_file_ends fs universe Hu fuel file_path self) as He.
  assert (Hoff : off_stack universe (processing_stack self) < fuel).
  { unfold off_stack.
    pose proof (List.filter_length_le
                  (fun p => bool_decide (p ∉ processing_stack self))
                  universe).
    lia. }
  specialize (He Hoff). unfold ends in He.
  destruct (process_file fs fuel file_path self) as [[pf|e|] self'];
    [left; eauto|right; eauto|now destruct He].
Qed.

(** The file system in memory has finitely many readable files, and its
    [resolve] gives the same path when applied again. *)

Lemma Forall_removelast {A} (P : A -> Prop) (l : list A) :
  Forall P l -> Forall P (removelast l).
Proof.
  induction 1 as [|x l Hx Hl IH]; simpl; [constructor|].
  destruct l; [constructor|]. now constructor.
Qed.

Lemma normalise_no_dotdot rest :
  forall seen,
    Forall (fun x => x <> "..") seen ->
    Forall (fun x => x <> "..") (MemFS.normalise seen rest).
Proof.
  induction rest as [|x rest IH]; intros seen Hseen; simpl; [exact Hseen|].
  unfold Str.eqb. destruct (bool_decide (x = "..")) eqn:E.
  - apply IH. now apply Forall_removelast.
  - apply IH. apply Forall_app. split; [exact Hseen|].
    constructor; [|constructor]. now apply bool_decide_eq_false in E.
Qed.

Lemma normalise_id rest :
  forall seen,
    Forall (fun x => x <> "..") rest ->
    MemFS.normalise seen rest = seen ++ rest.
Proof.
  induction rest as [|x rest IH]; intros seen Hrest; simpl.
  - now rewrite app_nil_r.
  - inversion Hrest as [|? ? Hx Hr]; subst.
    unfold Str.eqb. rewrite bool_decide_eq_false_2 by exact Hx.
    rewrite IH by exact Hr. now rewrite <- app_assoc.
Qed.

Lemma MemFS_resolve_idempotent cwd p :
  PathLib.is_absolute cwd = true ->
  MemFS.resolve cwd (MemFS.resolve cwd p) = MemFS.resolve cwd p.
Proof.
  intros Hcwd. unfold MemFS.resolve at 1.
  assert (Habs : PathLib.is_absolute (MemFS.resolve cwd p) = true).
  { unfold MemFS.resolve, PathLib.is_absolute. simpl.
    unfold PathLib.joinpath.
    destruct (PathLib.is_absolute p) eqn:E; [exact E|exact Hcwd]. }
  unfold PathLib.joinpath at 1 2. rewrite Habs.
  unfold MemFS.resolve. simpl.
  rewrite normalise_id; [reflexivity|].
  apply normalise_no_dotdot. constructor.
Qed.

Lemma MemFS_lookup_Some files p content :
  MemFS.lookup files p = Some content ->
  p ∈ List.map (fun f => PathLib.of_string (fst f)) files.
Proof.
  induction files as [|[name c] files IH]; simpl; [discriminate|].
  destruct (bool_decide (PathLib.of_string name = p)) eqn:E.
  - intros _. apply bool_decide_eq_true in E as <-. left.
  - intros H. right. now apply IH.
Qed.

Lemma MemFS_universe cwd files p content :
  PathLib.is_absolute (PathLib.of_string cwd) = true ->
  fs_read (MemFS.make cwd files) (fs_resolve (MemFS.make cwd files) p)
  = Some content ->
  fs_resolve (MemFS.make cwd files) p
    ∈ List.map (fun f => PathLib.of_string (fst f)) files.
Proof.
  intros Hcwd. simpl. rewrite MemFS_resolve_idempotent by exact Hcwd.
  apply MemFS_lookup_Some.
Qed.

Lemma process_file_terminates_witness :
  (exists pf self',
      process_file cyclic_fs 3 (PathLib.of_string "a.h") header_run
      = (Return pf, self'))
  \/ (exists e self',
         process_file cyclic_fs 3 (PathLib.of_string "a.h") header_run
         = (Raise e, self')).
Proof.
  apply (process_file_terminates cyclic_fs
           [PathLib.of_string "/proj/a.h"; PathLib.of_string "/proj/b.h"]).
  - intros p content. now apply (MemFS_universe "/proj").
  - simpl. lia.
Defined.

(** ** What a call never undoes *)

Section Conservative.

Variable fs : FileSystem.

(** A computation that only appends to [stderr]. *)
Definition appends_only {A} (m : M A) : Prop :=
  forall self r self',
    m self = (r, self') -> exists msgs, stderr self' = stderr self ++ msgs.

Lemma process_line_appends_only rec file_path abs_path line pl :
  (forall p, appends_only (rec p)) ->
  appends_only (process_line fs rec file_path abs_path line pl).
Proof.
  intros Hrec self r self' H.
  destruct (process_line_cases _ _ _ _ _ _ _ _ _ H)
    as [(out & msgs & -> & -> & _)|(name & ip & Hd & Hf & Hn & Hp)].
  - now exists msgs.
  - rewrite (process_line_inline _ _ _ _ _ _ _ _ _ Hd Hf Hn Hp) in H.
    destruct (rec ip self) as [r1 self1] eqn:Hr.
    destruct (Hrec _ _ _ _ Hr) as [msgs Hm].
    destruct r1 as [f|e|]; injection H as <- <-; [|now exists msgs..].
    exists (msgs ++ [inline_msg self name ip]). simpl.
    now rewrite Hm, <- app_assoc.
Qed.

Lemma process_lines_appends_only rec file_path abs_path lines :
  (forall p, appends_only (rec p)) ->
  forall pl, appends_only (process_lines fs rec file_path abs_path lines pl).
Proof.
  intros Hrec. induction lines as [|line lines IH]; intros pl self r self' H.
  - injection H as <- <-. exists []. now rewrite app_nil_r.
  - simpl in H. unfold bind in H.
    destruct (process_line fs rec file_path abs_path line pl self)
      as [r1 self1] eqn:Hl.
    destruct (process_line_appends_only _ _ _ _ _ Hrec _ _ _ Hl) as [m1 H1].
    destruct r1 as [pl1|e|]; try (injection H as <- <-; now exists m1).
    destruct (IH _ _ _ _ H) as [m2 H2].
    exists (m1 ++ m2). now rewrite H2, H1, <- app_assoc.
Qed.

Lemma process_file_appends_only fuel :
  forall file_path, appends_only (process_file fs fuel file_path).
Proof.
  induction fuel as [|fuel IH]; intros file_path self r self' H.
  - injection H as <- <-. exists []. now rewrite app_nil_r.
  - destruct (decide (fs_resolve fs file_path ∈ processing_stack self))
      as [Hin|Hin].
    + simpl in H. unfold bind, gets in H.
      rewrite decide_True in H by exact Hin.
      injection H as <- <-. exists []. now rewrite app_nil_r.
    + rewrite process_file_step in H by exact Hin. cbv zeta in H.
      destruct (fs_read fs (fs_resolve fs file_path)) as [content|].
      2:{ injection H as <- <-. exists []. now rewrite app_nil_r. }
      destruct (process_lines fs (process_file fs fuel) file_path
                  (fs_resolve fs file_path) (Str.split newline content) []
                  (entered (fs_resolve fs file_path) self))
        as [r1 self1] eqn:Hl.
      destruct (process_lines_appends_only _ _ _ _ IH _ _ _ _ Hl) as [msgs Hm].
      destruct r1; injection H as <- <-; now exists msgs.
Qed.

(** X5. A call of [process_file], however it ends, leaves the search
    path and the two switches as they were, removes nothing from
    [already_inlined], and only appends to what was printed on [stderr]. *)
Theorem process_file_conservative fuel file_path self r self' :
  process_file fs fuel file_path self = (r, self') ->
  include_paths self' = include_paths self
  /\ inline_headers self' = inline_headers self
  /\ inline_sources self' = inline_sources self
  /\ already_inlined self ⊆ already_inlined self'
  /\ exists msgs, stderr self' = stderr self ++ msgs.
Proof.
  intros H.
  destruct (process_file_well_behaved fs fuel file_path _ _ _ H)
    as ((H1 & H2 & H3) & Hi & _).
  destruct (process_file_appends_only fuel file_path _ _ _ H) as [msgs Hm].
  repeat split; try easy. now exists msgs.
Qed.

End Conservative.

Lemma process_file_conservative_witness :
  exists self',
    snd (process_file cyclic_fs 3 (PathLib.of_string "a.h") header_run) = self'
    /\ include_paths self' = [PathLib.of_string "."]
    /\ inline_headers self' = true
    /\ inline_sources self' = false.
Proof.
  destruct (process_file cyclic_fs 3 (PathLib.of_string "a.h") header_run)
    as [r self'] eqn:H.
  destruct (process_file_conservative cyclic_fs 3 _ _ _ _ H)
    as (H1 & H2 & H3 & _).
  exists self'. repeat split; assumption.
Defined.

(** ** Includes that are found and not inlined *)



(** The source file of a test library, with its public header, an
    internal header and the two headers the source policy inlines by
    name. *)
Definition gtest_fs : FileSystem :=
  MemFS.make "/gtest"
    [("/gtest/src/gtest-all.cc",
      text ["#include " +:+ quoted "gtest/gtest.h";
            "#include " +:+ quoted "gtest/gtest-death-test.h";
            "#include " +:+ quoted "gtest/gtest-spi.h";
            "#include " +:+ quoted "src/gtest.cc"]);
     ("/gtest/include/gtest/gtest.h", text ["// public"]);
     ("/gtest/include/gtest/gtest-death-test.h", text ["// death"]);
     ("/gtest/include/gtest/gtest-spi.h", text ["// spi"]);
     ("/gtest/src/gtest.cc", text ["// impl"])].

Definition source_run : CppFusioner :=
  CppFusioner_init ["include"; "."] false true.

Example gtest_all_output :
  fst (process_file gtest_fs 2 (PathLib.of_string "src/gtest-all.cc") source_run)
  = Return (mkProcessedFile
              (PathLib.of_string "/gtest/src/gtest-all.cc")
              (text ["#include " +:+ quoted "gtest/gtest.h";
                     "//#include " +:+ quoted "gtest/gtest-death-test.h";
                     "// Inlined from: include/gtest/gtest-spi.h";
                     "// spi";
                     "// Inlined from: src/gtest.cc";
                     "// impl"])
              SOURCE).
Proof. by_computation. Qed.


(** ** The script *)

Lemma fuse_file_well_behaved fs fuel input_file output_file :
  well_behaved (fuse_file fs fuel input_file output_file).
Proof.
  intros self r self' H. unfold fuse_file, bind in H.
  destruct (process_file fs fuel (PathLib.of_string input_file) self)
    as [r1 self1] eqn:Hp.
  destruct (process_file_well_behaved fs fuel _ _ _ _ Hp) as (Hc & Hi & Hs & He).
  destruct r1 as [pf|e|]; injection H as <- <-; wb_from Hc Hi Hs He.
Qed.

(** X7. The script stops with the usage message exactly when it gets
    fewer than two arguments after its own name.  Otherwise the engine it
    runs has the directories given after the output file as search path,
    or the current directory alone when none is given; it inlines headers
    exactly when the input is named as a header and sources exactly when
    it is named as a source, never both; and when the run ends, by
    returning or raising, the engine still has this configuration and an
    empty processing stack. *)
Theorem main_run fs fuel argv :
  (main fs fuel argv = None <-> length argv < 3)
  /\ forall prog input_file output_file dirs r self',
      argv = prog :: input_file :: output_file :: dirs ->
      main fs fuel argv = Some (r, self') ->
      include_paths self'
      = List.map PathLib.of_string (match dirs with [] => ["."] | _ => dirs end)
      /\ inline_headers self'
         = bool_decide (get_file_type (PathLib.of_string input_file) = HEADER)
      /\ inline_sources self'
         = bool_decide (get_file_type (PathLib.of_string input_file) = SOURCE)
      /\ inline_headers self' && inline_sources self' = false
      /\ (r <> OutOfFuel -> processing_stack self' = ∅).
Proof.
  split.
  - destruct argv as [|a [|b [|c rest]]]; simpl; split;
      try reflexivity; try discriminate; lia.
  - intros prog input_file output_file dirs r self' -> H.
    simpl in H. injection H as H.
    destruct (fuse_file_well_behaved fs fuel _ _ _ _ _ H)
      as ((H1 & H2 & H3) & _ & Hs & _).
    simpl in H1, H2, H3.
    rewrite <- H1, <- H2, <- H3.
    repeat split.
    + destruct (get_file_type (PathLib.of_string input_file)); reflexivity.
    + exact Hs.
Qed.

Lemma main_run_witness :
  include_paths
    (snd (fuse_file twice_fs 2 "a.h" "fused.h" (CppFusioner_init ["."] true false)))
  = [PathLib.of_string "."]
  /\ processing_stack
       (snd (fuse_file twice_fs 2 "a.h" "fused.h"
                       (CppFusioner_init ["."] true false)))
     = ∅.
Proof.
  destruct (fuse_file twice_fs 2 "a.h" "fused.h" (CppFusioner_init ["."] true false))
    as [r self'] eqn:H.
  destruct (proj2 (main_run twice_fs 2 ["fuse"; "a.h"; "fused.h"])
                  "fuse" "a.h" "fused.h" [] r self' eq_refl)
    as (H1 & _ & _ & _ & H5).
  - simpl. now rewrite H.
  - split; [exact H1|]. apply H5. intros ->. vm_compute in H. discriminate H.
Defined.

(** ** Runs that inline nothing *)

Section SwitchesOff.

Variable fs : FileSystem.

(** An output line for an input line: the line, or the line behind [//]. *)
Definition kept_or_commented (line out : string) : Prop :=
  out = line \/ out = "//" +:+ line.

Lemma process_line_switches_off rec file_path abs_path line pl self :
  inline_headers self = false ->
  inline_sources self = false ->
  already_inlined self = ∅ ->
  exists out msgs,
    process_line fs rec file_path abs_path line pl self
    = (Return (pl ++ [out]), set_stderr (stderr self ++ msgs) self)
    /\ kept_or_commented line out.
Proof.
  intros Hh Hs He. unfold process_line, kept_or_commented.
  destruct (Re.match_include line) as [m|].
  2:{ exists line, []. split; [|now left].
      unfold ret. rewrite app_nil_r. now destruct self. }
  destruct (Str.contains Re.langle line).
  { eexists line, [_]. split; [reflexivity|now left]. }
  unfold bind at 1. unfold gets at 1. unfold id.
  destruct (find_include_file fs self (Re.group1 m) (PathLib.parent abs_path))
    as [ip|].
  2:{ eexists line, [_]. split; [reflexivity|now left]. }
  unfold in_already_inlined. rewrite He.
  rewrite bool_decide_eq_false_2 by apply not_elem_of_empty.
  rewrite Hh, Hs. cbn [andb].
  destruct (Str.startswith "gtest/" (Re.group1 m)
            && negb (Str.eqb (Re.group1 m) "gtest/gtest.h")).
  - eexists _, [_]. split; [reflexivity|now right].
  - eexists _, [_]. split; [reflexivity|now left].
Qed.

Lemma process_lines_switches_off rec file_path abs_path lines :
  forall pl self,
    inline_headers self = false ->
    inline_sources self = false ->
    already_inlined self = ∅ ->
    exists outs msgs,
      process_lines fs rec file_path abs_path lines pl self
      = (Return (pl ++ outs), set_stderr (stderr self ++ msgs) self)
      /\ Forall2 kept_or_commented lines outs.
Proof.
  induction lines as [|line lines IH]; intros pl self Hh Hs He.
  - exists [], []. split; [|constructor].
    simpl. unfold ret. rewrite !app_nil_r. now destruct self.
  - simpl. unfold bind.
    destruct (process_line_switches_off rec file_path abs_path line pl self
                Hh Hs He) as (out & m1 & -> & Hout).
    destruct (IH (pl ++ [out]) (set_stderr (stderr self ++ m1) self) Hh Hs He)
      as (outs & m2 & -> & Houts).
    exists (out :: outs), (m1 ++ m2). split; [|now constructor].
    rewrite <- (app_assoc pl). unfold set_stderr. simpl.
    now rewrite <- app_assoc.
Qed.

(** X8. With both switches off and nothing in [already_inlined] (the
    engine the script builds for an input that is neither a header nor a
    source), a readable file is processed without any recursive call: the
    result has one output line for each line of the file, the line itself
    or the line behind [//], and the state changes on [stderr] only. *)
Theorem switches_off_line_by_line fuel file_path self content :
  inline_headers self = false ->
  inline_sources self = false ->
  already_inlined self = ∅ ->
  fs_resolve fs file_path ∉ processing_stack self ->
  fs_read fs (fs_resolve fs file_path) = Some content ->
  exists outs msgs,
    process_file fs (S fuel) file_path self
    = (Return (mkProcessedFile (fs_resolve fs file_path) (Str.join nl outs)
                               (get_file_type (fs_resolve fs file_path))),
       set_stderr (stderr self ++ msgs) self)
    /\ Forall2 kept_or_commented (Str.split newline content) outs.
Proof.
  intros Hh Hs He Hin Hread.
  rewrite process_file_step by exact Hin. cbv zeta. rewrite Hread.
  destruct (process_lines_switches_off (process_file fs fuel) file_path
              (fs_resolve fs file_path) (Str.split newline content) []
              (entered (fs_resolve fs file_path) self) Hh Hs He)
    as (outs & msgs & -> & Houts).
  exists outs, msgs. split; [reflexivity|exact Houts].
Qed.

End SwitchesOff.

(** A text file that mentions headers of the test library. *)
Definition notes_fs : FileSystem :=
  MemFS.make "/gtest"
    [("/gtest/notes.txt", text ["#include " +:+ quoted "gtest/gtest-spi.h";
                                "#include " +:+ quoted "gtest/gtest.h";
                                "see above"]);
     ("/gtest/gtest/gtest.h", text ["// public"]);
     ("/gtest/gtest/gtest-spi.h", text ["// spi"])].

Lemma switches_off_line_by_line_witness :
  exists outs,
    fst (process_file notes_fs 1 (PathLib.of_string "notes.txt")
                      (CppFusioner_init ["."] false false))
    = Return (mkProcessedFile (PathLib.of_string "/gtest/notes.txt")
                              (Str.join nl outs) UNKNOWN)
    /\ Forall2 kept_or_commented
               ["#include " +:+ quoted "gtest/gtest-spi.h";
                "#include " +:+ quoted "gtest/gtest.h";
                "see above"] outs.
Proof.
  destruct (switches_off_line_by_line notes_fs 0 (PathLib.of_string "notes.txt")
              (CppFusioner_init ["."] false false)
              (text ["#include " +:+ quoted "gtest/gtest-spi.h";
                     "#include " +:+ quoted "gtest/gtest.h"; "see above"])
              eq_refl eq_refl eq_refl) as (outs & msgs & H & Houts).
  - not_in_set.
  - reflexivity.
  - exists outs. rewrite H. split; [reflexivity|exact Houts].
Defined.

(** ** What gets into [already_inlined] *)

Section Recorded.

Variable fs : FileSystem.
Variable self0 : CppFusioner.

Lemma search_include_paths_exists name paths ip :
  search_include_paths fs name paths = Some ip -> fs_exists fs ip = true.
Proof.
  induction paths as [|d rest IH]; simpl; [discriminate|].
  destruct (fs_exists fs (d // name)) eqn:E; [|exact IH].
  now intros [= <-].
Qed.

Lemma find_include_file_exists self name dir ip :
  find_include_file fs self name dir = Some ip -> fs_exists fs ip = true.
Proof.
  unfold find_include_file.
  destruct (fs_exists fs (dir // name)) eqn:E.
  - now intros [= <-].
  - apply search_include_paths_exists.
Qed.

(** A path the engine of the run may inline: it exists, and the policy
    takes it under some reference. *)
Definition inlinable (p : Path) : Prop :=
  fs_exists fs p = true /\ exists name, wants_inline self0 name p = true.

Definition records_inlinable {A} (m : M A) : Prop :=
  forall self r self',
    m self = (r, self') ->
    same_config self0 self ->
    forall p, p ∈ already_inlined self' -> p ∈ already_inlined self \/ inlinable p.

Lemma process_line_records_inlinable rec file_path abs_path line pl :
  (forall p, well_behaved (rec p)) ->
  (forall p, records_inlinable (rec p)) ->
  records_inlinable (process_line fs rec file_path abs_path line pl).
Proof.
  intros Hwb Hrec self r self' H Hc p Hp.
  destruct (process_line_cases _ _ _ _ _ _ _ _ _ H)
    as [(out & msgs & -> & -> & _)|(name & ip & Hd & Hf & Hn & Hpol)].
  - now left.
  - rewrite (process_line_inline _ _ _ _ _ _ _ _ _ Hd Hf Hn Hpol) in H.
    destruct (rec ip self) as [r1 self1] eqn:Hr.
    pose proof (Hrec _ _ _ _ Hr Hc) as H1.
    destruct r1 as [f|e|]; injection H as <- <-; try now apply H1.
    apply elem_of_union in Hp as [Hp|Hp]; [now apply H1|].
    apply elem_of_singleton in Hp as ->. right. split.
    + eapply find_include_file_exists; eassumption.
    + exists name. now rewrite (wants_inline_config _ _ _ _ Hc).
Qed.

Lemma process_lines_records_inlinable rec file_path abs_path lines :
  (forall p, well_behaved (rec p)) ->
  (forall p, records_inlinable (rec p)) ->
  forall pl, records_inlinable (process_lines fs rec file_path abs_path lines pl).
Proof.
  intros Hwb Hrec.
  induction lines as [|line lines IH]; intros pl self r self' H Hc p Hp.
  - injection H as <- <-. now left.
  - simpl in H. unfold bind in H.
    destruct (process_line fs rec file_path abs_path line pl self)
      as [r1 self1] eqn:Hl.
    pose proof (process_line_records_inlinable _ _ _ _ _ Hwb Hrec
                  _ _ _ Hl Hc) as H1.
    destruct (process_line_well_behaved fs _ _ _ _ _ Hwb _ _ _ Hl) as (Hc1 & _).
    destruct r1 as [pl1|e|]; try (injection H as <- <-; now apply H1).
    destruct (IH _ _ _ _ H (same_config_trans _ _ _ Hc Hc1) p Hp) as [Hq|Hq];
      [now apply H1|now right].
Qed.

Lemma process_file_records_inlinable fuel :
  forall file_path, records_inlinable (process_file fs fuel file_path).
Proof.
  induction fuel as [|fuel IH]; intros file_path self r self' H Hc p Hp.
  - injection H as <- <-. now left.
  - destruct (decide (fs_resolve fs file_path ∈ processing_stack self))
      as [Hin|Hin].
    + simpl in H. unfold bind, gets in H.
      rewrite decide_True in H by exact Hin.
      injection H as <- <-. now left.
    + rewrite process_file_step in H by exact Hin. cbv zeta in H.
      destruct (fs_read fs (fs_resolve fs file_path)) as [content|].
      2:{ injection H as <- <-. now left. }
      destruct (process_lines fs (process_file fs fuel) file_path
                  (fs_resolve fs file_path) (Str.split newline content) []
                  (entered (fs_resolve fs file_path) self))
        as [r1 self1] eqn:Hl.
      pose proof (process_lines_records_inlinable _ _ _ _
                    (process_file_well_behaved fs fuel) IH _ _ _ _ Hl Hc) as H1.
      destruct r1; injection H as <- <-; now apply H1.
Qed.

End Recorded.

(** X9. Whatever a call of [process_file] adds to [already_inlined] is
    a path the resolver returned and the policy took: it exists on the
    file system and some reference to it satisfies the inlining policy of
    the run.  In a run that inlines headers only, every path added is a
    header. *)
Theorem already_inlined_only_inlinable fs fuel file_path self r self' p :
  process_file fs fuel file_path self = (r, self') ->
  p ∈ already_inlined self' ->
  p ∉ already_inlined self ->
  fs_exists fs p = true
  /\ (exists name, wants_inline self name p = true)
  /\ (inline_sources self = false -> get_file_type p = HEADER).
Proof.
  intros H Hp Hnew.
  destruct (process_file_records_inlinable fs self fuel file_path _ _ _ H
              (same_config_refl self) p Hp) as [Hold|[Hex [name Hpol]]];
    [contradiction|].
  split; [exact Hex|split; [now exists name|]].
  intros Hs. unfold wants_inline in Hpol. rewrite Hs in Hpol.
  rewrite orb_false_r in Hpol. apply andb_true_iff in Hpol as [_ Ht].
  now apply bool_decide_eq_true in Ht.
Qed.

Lemma already_inlined_only_inlinable_witness :
  fs_exists diamond_fs (PathLib.of_string "/proj/c.h") = true
  /\ (exists name,
         wants_inline header_run name (PathLib.of_string "/proj/c.h") = true)
  /\ (inline_sources header_run = false ->
      get_file_type (PathLib.of_string "/proj/c.h") = HEADER).
Proof.
  destruct (process_file diamond_fs 3 (PathLib.of_string "a.h") header_run)
    as [r self'] eqn:H.
  apply (already_inlined_only_inlinable diamond_fs 3 (PathLib.of_string "a.h")
           header_run r self' (PathLib.of_string "/proj/c.h") H).
  - replace self'
      with (snd (process_file diamond_fs 3 (PathLib.of_string "a.h") header_run))
      by now rewrite H.
    in_set.
  - not_in_set.
Defined.

(** ** References that are absolute paths *)

Section AbsoluteReference.

Variable fs : FileSystem.

Lemma div_absolute_reference p name :
  PathLib.is_absolute (PathLib.of_string name) = true ->
  p // name = PathLib.of_string name.
Proof. intros H. unfold PathLib.div, PathLib.joinpath. now rewrite H. Qed.

Lemma search_include_paths_absolute_reference name paths :
  PathLib.is_absolute (PathLib.of_string name) = true ->
  fs_exists fs (PathLib.of_string name) = false ->
  search_include_paths fs name paths = None.
Proof.
  intros Habs Hno. induction paths as [|d rest IH]; simpl; [reflexivity|].
  now rewrite div_absolute_reference, Hno.
Qed.

(** X10. A reference that is an absolute path is looked up as that path
    and nowhere else: neither the directory of the including file nor the
    search path plays a part. *)
Theorem absolute_reference_ignores_directories self name dir :
  PathLib.is_absolute (PathLib.of_string name) = true ->
  find_include_file fs self name dir
  = if fs_exists fs (PathLib.of_string name)
    then Some (PathLib.of_string name) else None.
Proof.
  intros Habs. unfold find_include_file.
  rewrite div_absolute_reference by exact Habs.
  destruct (fs_exists fs (PathLib.of_string name)) eqn:E; [reflexivity|].
  now apply search_include_paths_absolute_reference.
Qed.

End AbsoluteReference.

Lemma absolute_reference_ignores_directories_witness :
  find_include_file diamond_fs (CppFusioner_init ["elsewhere"] true false)
                    "/proj/c.h" (PathLib.of_string "/tmp")
  = Some (PathLib.of_string "/proj/c.h").
Proof.
  rewrite (absolute_reference_ignores_directories diamond_fs _ "/proj/c.h")
    by reflexivity.
  reflexivity.
Defined.

(** ** Included files that cannot be read *)

(** X11. When the run comes to a call of [process_file] on a file that
    is not on the stack and cannot be read (the resolver only checked
    that it exists), the call raises the error of the read with the state
    as it found it, and the error comes out of the top-level call: the
    run is aborted, and the top-level stack is as before. *)
Theorem unreadable_include_aborts fs fuel0 top self0 frames fuel q self_q :
  CallChain fs fuel0 top self0 frames (S fuel) q self_q ->
  fs_resolve fs q ∉ processing_stack self_q ->
  fs_read fs (fs_resolve fs q) = None ->
  process_file fs (S fuel) q self_q = (Raise (OSError (fs_resolve fs q)), self_q)
  /\ exists self',
      process_file fs fuel0 top self0 = (Raise (OSError (fs_resolve fs q)), self')
      /\ processing_stack self' = processing_stack self0.
Proof.
  intros Hchain Hin Hread.
  assert (Hq : process_file fs (S fuel) q self_q
               = (Raise (OSError (fs_resolve fs q)), self_q)).
  { rewrite process_file_step by exact Hin. cbv zeta. now rewrite Hread. }
  split; [exact Hq|].
  destruct (CallChain_raise _ _ _ _ _ _ _ _ _ _ Hchain Hq) as [self' Htop].
  exists self'. split; [exact Htop|].
  destruct (process_file_well_behaved fs fuel0 top _ _ _ Htop) as (_ & _ & Hs & _).
  apply Hs. discriminate.
Qed.

(** [a.h] includes [b.h]; a path [b.h] exists next to it and cannot be
    read as a file. *)
Definition unreadable_fs : FileSystem :=
  let base := MemFS.make "/proj" [("/proj/a.h", text ["#include " +:+ quoted "b.h"])] in
  mkFS (fun p => fs_exists base p
                 || bool_decide (fs_resolve base p = PathLib.of_string "/proj/b.h"))
       (fs_read base)
       (fs_resolve base).

Lemma unreadable_include_aborts_witness :
  exists self',
    process_file unreadable_fs 2 (PathLib.of_string "a.h") header_run
    = (Raise (OSError (PathLib.of_string "/proj/b.h")), self')
    /\ processing_stack self' = ∅.
Proof.
  eassert (Hchain : CallChain unreadable_fs 2 (PathLib.of_string "a.h") header_run
                      [PathLib.of_string "/proj/a.h"] 1
                      (PathLib.of_string "/proj/b.h") _).
  { eapply (chain_call unreadable_fs 2 _ _ [] 2 (PathLib.of_string "a.h")).
    - apply chain_top.
    - first_line_calls. }
  refine (proj2 (unreadable_include_aborts _ _ _ _ _ _ _ _ Hchain _ _)).
  - not_in_set.
  - reflexivity.
Defined.
